(** * enjarify: the translation driver ([enjarify/main.py])

    A shallow embedding of [translate], [writeToJar] and [main]: the part of
    [main] that runs after the command line has been parsed and the inputs
    have been read (lines 89-100), and, further down, its start (lines 62-87:
    the images of the input file, the name of the output file and the
    overwrite protection), over a file system given as a parameter.  With
    them come the properties of the driver: per-class failure isolation, the
    duplicate-name policy, the frame of the two result mappings and the order
    in which the output is written.

    The two result mappings are Python [OrderedDict] objects that [translate]
    receives from its caller, mutates in place and returns.  They are modelled
    as insertion-ordered association lists living in a store of objects, and
    the driver as a state-and-exception monad over that store.  The store also
    records a trace of what the driver does to the outside world: the calls it
    makes to its collaborators, what it prints, and the entries it writes to
    the output archive. *)

From Stdlib Require Import ZArith List Bool Lia Ascii DecimalString Sorted
  Permutation.
From stdpp Require Import base tactics list strings.
Import ListNotations.
Open Scope string_scope.
Open Scope list_scope.

(** ** Python values *)

Definition bytes := list Byte.byte.

(** The objects the driver stores in its mappings and hands to [print]. *)
Inductive pyobj :=
| PyBytes (b : bytes)
| PyStr (s : string)
| PyInt (n : Z).

(** A raised Python exception.  [is_Exception] says whether it is an instance
    of [Exception] (as opposed to a bare [BaseException] such as
    [KeyboardInterrupt] or [SystemExit]); [format_exc] is what
    [traceback.format_exc()] returns while it is being handled. *)
Record exn := mkExn { is_Exception : bool; format_exc : string }.

(** The result of a call: it returns a value or raises. *)
Inductive outcome (A : Type) :=
| Returned (a : A)
| Raised (e : exn).
Arguments Returned {A} a.
Arguments Raised {A} e.

(** [len(obj)]: defined on [bytes] and [str], a [TypeError] on [int]. *)
Definition TypeError_len : exn :=
  mkExn true "TypeError: object of type 'int' has no len()".

Definition py_len (v : pyobj) : outcome Z :=
  match v with
  | PyBytes b => Returned (Z.of_nat (length b))
  | PyStr s => Returned (Z.of_nat (String.length s))
  | PyInt _ => Raised TypeError_len
  end.

(** [str(n)] for an [int]. *)
Definition str_of_int (n : Z) : string := NilZero.string_of_int (Z.to_int n).

(** ** The options module *)

(** Modelled from the spec: [jvm/optimization/options.py] is not part of the
    sources at hand.  Section 4.5 of the specification names two
    configurations, [NONE] (fast), which skips the optimization pipeline, and
    [PRETTY], which runs it. *)
Inductive Options := NONE | PRETTY.

(** Modelled from the spec: whether a configuration runs the optimization
    passes of section 4.5. *)
Definition runs_optimization_pipeline (o : Options) : bool :=
  match o with
  | NONE => false
  | PRETTY => true
  end.

(** ** Ordered dictionaries

    [collections.OrderedDict] keyed by [str]: an association list in
    insertion order. *)
Definition odict := list (string * pyobj).

Definition od_keys (d : odict) : list string := map fst d.

(** [k in d] *)
Definition od_contains (k : string) (d : odict) : bool :=
  existsb (String.eqb k) (od_keys d).

(** [d.get(k)] *)
Fixpoint od_get (k : string) (d : odict) : option pyobj :=
  match d with
  | [] => None
  | (k', v) :: d' => if String.eqb k k' then Some v else od_get k d'
  end.

(** [d[k] = v]: a key already present keeps its position and gets the new
    value, a new key goes to the end. *)
Fixpoint od_set (k : string) (v : pyobj) (d : odict) : odict :=
  match d with
  | [] => [(k, v)]
  | (k', v') :: d' =>
      if String.eqb k k' then (k', v) :: d' else (k', v') :: od_set k v d'
  end.

(** [len(d)] *)
Definition od_len (d : odict) : Z := Z.of_nat (length d).

(** Two mappings have no key in common. *)
Definition od_disjoint (c e : odict) : Prop :=
  forall k, In k (od_keys c) -> In k (od_keys e) -> False.

(** ** The collaborators of the driver

    [parsedex], [jvm.writeclass] and [mutf8] are imported by [main.py] and are
    not part of the sources at hand; the driver is parametric in them.  They
    are functions of their arguments, and [decode] always returns (the
    specification has it as a pure function from bytes to text). *)
Class Collaborators := {
  (** the class objects of a parsed image *)
  Cls : Type;
  (** [cls.name], the raw name bytes of a class *)
  cls_name : Cls -> bytes;
  (** [parsedex.DexFile(data).classes]: the class list of an image, in the
      order the image declares them, or the exception the parser raised *)
  DexFile : bytes -> outcome (list Cls);
  (** [mutf8.decode] *)
  decode : bytes -> string;
  (** [writeclass.toClassFile(cls, opts)]: the class-file bytes, or the
      exception raised while translating the class *)
  toClassFile : Cls -> Options -> outcome bytes;
}.

Inductive compression := ZIP_STORED | ZIP_DEFLATED.

Section Driver.
Context {X : Collaborators}.

(** What the driver does to the outside world. *)
Inductive event :=
| CallDexFile (data : bytes)
| CallDecode (b : bytes)
| CallToClassFile (cls : Cls) (opts : Options)
| Print (args : list pyobj)
| WriteStr (zipinfo_name : string) (data : pyobj) (compress_type : compression).

(** ** The store *)

Definition loc := nat.

(** [heap] gives the contents of every [OrderedDict] object, [next] is the
    first address not yet allocated, [trace] the events so far, oldest
    first. *)
Record state := mkState {
  heap : loc -> odict;
  next : loc;
  trace : list event;
}.

Definition init_state : state := mkState (fun _ => []) 0 [].

Definition upd (l : loc) (d : odict) (h : loc -> odict) : loc -> odict :=
  fun l' => if Nat.eqb l' l then d else h l'.

(** ** The monad of the driver: state, and exceptions that keep the state *)

Definition M (A : Type) := state -> outcome A * state.

Definition ret {A} (a : A) : M A := fun s => (Returned a, s).

Definition bind {A B} (m : M A) (k : A -> M B) : M B :=
  fun s =>
    match m s with
    | (Returned a, s') => k a s'
    | (Raised e, s') => (Raised e, s')
    end.

(** [try: body  except Exception: handler] *)
Definition try_except_Exception (body : M unit) (handler : exn -> M unit) : M unit :=
  fun s =>
    match body s with
    | (Returned a, s') => (Returned a, s')
    | (Raised e, s') =>
        if is_Exception e then handler e s' else (Raised e, s')
    end.

Definition lift {A} (o : outcome A) : M A := fun s => (o, s).

Definition emit (ev : event) : M unit :=
  fun s => (Returned tt, mkState (heap s) (next s) (trace s ++ [ev])).

End Driver.

Declare Scope driver_scope.
Delimit Scope driver_scope with driver.
Notation "'let!' x ':=' m 'in' k" := (bind m (fun x => k))
  (at level 10, x name, m at level 100, k at level 200, only parsing) : driver_scope.
Notation "m ;;; k" := (bind m (fun _ => k))
  (at level 100, k at level 200, right associativity, only parsing) : driver_scope.
Open Scope driver_scope.

Section Translate.
Context {X : Collaborators}.

(** [collections.OrderedDict()] *)
Definition new_OrderedDict : M loc :=
  fun s => (Returned (next s),
            mkState (upd (next s) [] (heap s)) (S (next s)) (trace s)).

(** [k in d] *)
Definition contains (d : loc) (k : string) : M bool :=
  fun s => (Returned (od_contains k (heap s d)), s).

(** [d[k] = v] *)
Definition setitem (d : loc) (k : string) (v : pyobj) : M unit :=
  fun s => (Returned tt,
            mkState (upd d (od_set k v (heap s d)) (heap s)) (next s) (trace s)).

(** [len(d)] *)
Definition len (d : loc) : M Z := fun s => (Returned (od_len (heap s d)), s).

(** [d.items()] *)
Definition items (d : loc) : M (list (string * pyobj)) :=
  fun s => (Returned (heap s d), s).

Definition print (args : list pyobj) : M unit := emit (Print args).

(** Calls to the collaborators leave their mark in the trace. *)
Definition call_DexFile (data : bytes) : M (list Cls) :=
  emit (CallDexFile data) ;;; lift (DexFile data).

Definition call_decode (b : bytes) : M string :=
  emit (CallDecode b) ;;; ret (decode b).

Definition call_toClassFile (cls : Cls) (opts : Options) : M bytes :=
  emit (CallToClassFile cls opts) ;;; lift (toClassFile cls opts).

(** [for x in l: body(x)] *)
Fixpoint for_each {A} (l : list A) (body : A -> M unit) : M unit :=
  match l with
  | [] => ret tt
  | x :: l' => body x ;;; for_each l' body
  end.

(** ** [translate] *)

(** The key under which a class is filed: [decode(cls.name) + '.class']. *)
Definition unicode_name_of (cls : Cls) : string :=
  (decode (cls_name cls) ++ ".class")%string.

(** One iteration of the loop of [translate] (lines 32-44).  The [continue]
    of line 35 ends the iteration before the progress report is reached. *)
Definition loop_body (opts : Options) (classes errors : loc) (cls : Cls) : M unit :=
  let! decoded := call_decode (cls_name cls) in
  let unicode_name := (decoded ++ ".class")%string in
  let! in_classes := contains classes unicode_name in
  let! in_errors := (if in_classes then ret true else contains errors unicode_name) in
  if in_errors then
    print [PyStr "Warning, duplicate class name"; PyStr unicode_name]
  else
    try_except_Exception
      (let! class_data := call_toClassFile cls opts in
       setitem classes unicode_name (PyBytes class_data))
      (fun e => setitem errors unicode_name (PyStr (format_exc e))) ;;;
    let! n := len classes in
    let! m := len errors in
    if Z.eqb ((n + m) mod 1000) 0 then
      let! n' := len classes in
      let! m' := len errors in
      print [PyInt (n' + m'); PyStr "classes processed"]
    else ret tt.

(** [translate(data, opts, classes=None, errors=None)] *)
Definition translate (data : bytes) (opts : Options)
    (classes errors : option loc) : M (loc * loc) :=
  let! dex_classes := call_DexFile data in
  let! classes := match classes with None => new_OrderedDict | Some c => ret c end in
  let! errors := match errors with None => new_OrderedDict | Some e => ret e end in
  for_each dex_classes (loop_body opts classes errors) ;;;
  ret (classes, errors).

(** ** [writeToJar]

    The archive is the sequence of [writestr] calls, in the order of
    [classes.items()]; the file it goes to ([fname]) is not modelled. *)
Definition writeToJar (classes : loc) : M unit :=
  let! entries := items classes in
  for_each entries (fun '(unicode_name, data) =>
    let! size := lift (py_len data) in
    (* Don't bother compressing small files *)
    let compress_type := if Z.ltb 10000 size then ZIP_DEFLATED else ZIP_STORED in
    emit (WriteStr unicode_name data compress_type)).

(** ** [main], from line 89 on

    [fast] is [args.fast], [dexs] the images read from the input file and
    [outname] the name of the output file. *)

(** [sorted(d.items())]: the keys of a dictionary are distinct, so the pairs
    are ordered by their keys alone. *)
Fixpoint insert_item (x : string * pyobj) (l : list (string * pyobj)) :=
  match l with
  | [] => [x]
  | y :: l' => if String.leb (fst x) (fst y) then x :: l else y :: insert_item x l'
  end.

Definition sorted_items (l : list (string * pyobj)) : list (string * pyobj) :=
  fold_right insert_item [] l.

Definition select_opts (fast : bool) : Options := if fast then NONE else PRETTY.

(** [--fast] is a [store_true] flag (line 59): [args.fast] is [False] unless
    the flag is given. *)
Definition fast_not_given : bool := false.

Definition main (fast : bool) (outname : string) (dexs : list bytes) : M unit :=
  let opts := select_opts fast in
  let! classes := new_OrderedDict in
  let! errors := new_OrderedDict in
  for_each dexs (fun data =>
    translate data opts (Some classes) (Some errors) ;;; ret tt) ;;;
  writeToJar classes ;;;
  print [PyStr "Output written to"; PyStr outname] ;;;
  let! failed := items errors in
  for_each (sorted_items failed) (fun '(name, error) => print [PyStr name; error]) ;;;
  let! n := len classes in
  let! m := len errors in
  print [PyStr (str_of_int n ++ " classes translated successfully, "
                ++ str_of_int m ++ " classes had errors")%string].

End Translate.

(** ** A small concrete set of collaborators

    Used to run the driver on concrete inputs.  An image is a sequence of
    bytes, one class per byte, and an empty image has no header to parse.
    The name of a class is its byte; class [X] is corrupt (translating it
    raises an [Exception]) and the translation of class [I] is interrupted
    (a [BaseException] that is not an [Exception]). *)
Module Toy.

Definition BadHeader : exn := mkExn true "ValueError: bad image header".
Definition Corrupt : exn := mkExn true "IndexError: corrupt class".
Definition Interrupt : exn := mkExn false "KeyboardInterrupt".

Definition A : Byte.byte := Byte.x41.
Definition B : Byte.byte := Byte.x42.
Definition I : Byte.byte := Byte.x49.
Definition X : Byte.byte := Byte.x58.

Definition toy_DexFile (data : bytes) : outcome (list Byte.byte) :=
  match data with
  | [] => Raised BadHeader
  | _ => Returned data
  end.

Definition toy_toClassFile (cls : Byte.byte) (opts : Options) : outcome bytes :=
  match cls with
  | Byte.x58 => Raised Corrupt
  | Byte.x49 => Raised Interrupt
  | _ => Returned (if runs_optimization_pipeline opts then [cls] else [cls; cls])
  end.

Definition collaborators : Collaborators := {|
  Cls := Byte.byte;
  cls_name := fun cls => [cls];
  DexFile := toy_DexFile;
  decode := String.string_of_list_byte;
  toClassFile := toy_toClassFile;
|}.

(** The store an earlier call leaves behind: the image [A X] has been
    translated into two new mappings, [0] and [1]. *)
Definition after_AX : state :=
  snd (translate (X := collaborators) [A; X] PRETTY None None init_state).

End Toy.

(** * Vocabulary of the properties *)

Section Vocabulary.
Context {X : Collaborators}.

(** ** Events *)

(** The events added between two states of one run. *)
Definition new_events (s s' : state) : list event :=
  drop (length (trace s)) (trace s').

(** The calls to the collaborators and the archive entries found in a list
    of events, oldest first. *)
Definition decode_calls (evs : list event) : list bytes :=
  flat_map (fun ev => match ev with CallDecode b => [b] | _ => [] end) evs.

Definition dexfile_calls (evs : list event) : list bytes :=
  flat_map (fun ev => match ev with CallDexFile d => [d] | _ => [] end) evs.

Definition toClassFile_calls (evs : list event) : list (Cls * Options) :=
  flat_map (fun ev => match ev with CallToClassFile c o => [(c, o)] | _ => [] end) evs.

Definition written (evs : list event) : list (string * pyobj * compression) :=
  flat_map (fun ev => match ev with WriteStr n d c => [(n, d, c)] | _ => [] end) evs.

(** [emits Q m]: whatever the state, [m] only adds events that satisfy [Q]. *)
Definition emits (Q : event -> Prop) {A} (m : M A) : Prop :=
  forall s r s', m s = (r, s') ->
    exists evs, trace s' = trace s ++ evs /\ Forall Q evs.

(** The progress report of line 44, as a function of the two mappings. *)
Definition progress_report (c e : odict) : list event :=
  if Z.eqb ((od_len c + od_len e) mod 1000) 0
  then [Print [PyInt (od_len c + od_len e); PyStr "classes processed"]]
  else [].

(** The warning of line 34. *)
Definition duplicate_warning (name : string) : event :=
  Print [PyStr "Warning, duplicate class name"; PyStr name].

(** ** The loop of [translate], iteration by iteration *)

(** The four cases as a relation between the state before an iteration and
    its outcome. *)
Inductive iteration (opts : Options) (lc le : loc) (cls : Cls) (s : state)
  : outcome unit -> state -> Prop :=
| iteration_duplicate :
    In (unicode_name_of cls) (od_keys (heap s lc))
      \/ In (unicode_name_of cls) (od_keys (heap s le)) ->
    iteration opts lc le cls s (Returned tt)
      (mkState (heap s) (next s)
         (trace s ++ [CallDecode (cls_name cls);
                      duplicate_warning (unicode_name_of cls)]))
| iteration_success data h' :
    ~ In (unicode_name_of cls) (od_keys (heap s lc)) ->
    ~ In (unicode_name_of cls) (od_keys (heap s le)) ->
    toClassFile cls opts = Returned data ->
    h' = upd lc (heap s lc ++ [(unicode_name_of cls, PyBytes data)]) (heap s) ->
    iteration opts lc le cls s (Returned tt)
      (mkState h' (next s)
         (trace s ++ [CallDecode (cls_name cls); CallToClassFile cls opts]
                  ++ progress_report (h' lc) (h' le)))
| iteration_failure e h' :
    ~ In (unicode_name_of cls) (od_keys (heap s lc)) ->
    ~ In (unicode_name_of cls) (od_keys (heap s le)) ->
    toClassFile cls opts = Raised e ->
    is_Exception e = true ->
    h' = upd le (heap s le ++ [(unicode_name_of cls, PyStr (format_exc e))]) (heap s) ->
    iteration opts lc le cls s (Returned tt)
      (mkState h' (next s)
         (trace s ++ [CallDecode (cls_name cls); CallToClassFile cls opts]
                  ++ progress_report (h' lc) (h' le)))
| iteration_abort e :
    ~ In (unicode_name_of cls) (od_keys (heap s lc)) ->
    ~ In (unicode_name_of cls) (od_keys (heap s le)) ->
    toClassFile cls opts = Raised e ->
    is_Exception e = false ->
    iteration opts lc le cls s (Raised e)
      (mkState (heap s) (next s)
         (trace s ++ [CallDecode (cls_name cls); CallToClassFile cls opts])).

(** [run body l s r s']: running [body] over [l] from [s], stopping at the
    first iteration that raises, ends in [s'] with outcome [r]. *)
Inductive run {A} (step : A -> state -> outcome unit -> state -> Prop)
  : list A -> state -> outcome unit -> state -> Prop :=
| run_done s : run step [] s (Returned tt) s
| run_next x l s s1 r s2 :
    step x s (Returned tt) s1 -> run step l s1 r s2 -> run step (x :: l) s r s2
| run_raise x l s e s1 :
    step x s (Raised e) s1 -> run step (x :: l) s (Raised e) s1.

(** No object is created, and every mapping keeps what it had, in place. *)
Definition extends (s s' : state) : Prop :=
  next s' = next s /\ forall l, heap s l `prefix_of` heap s' l.

(** ** A call of [translate] *)

(** The state after the image has been parsed. *)
Definition parsed (data : bytes) (s : state) : state :=
  mkState (heap s) (next s) (trace s ++ [CallDexFile data]).

(** The mapping a parameter of [translate] stands for (lines 28 and 29): the
    one given, or a new empty one. *)
Definition mapping_of (arg : option loc) (s : state) : loc * state :=
  match arg with
  | Some l => (l, s)
  | None => (next s, mkState (upd (next s) [] (heap s)) (S (next s)) (trace s))
  end.

(** The two mappings and the state in which the loop starts. *)
Definition entry (data : bytes) (classes errors : option loc) (s : state)
  : loc * loc * state :=
  let '(lc, s1) := mapping_of classes (parsed data s) in
  let '(le, s2) := mapping_of errors s1 in
  (lc, le, s2).

(** A call of [translate] either stops at the parser or runs the loop from
    [entry]. *)
Inductive translation (data : bytes) (opts : Options) (classes errors : option loc)
  (s : state) : outcome (loc * loc) -> state -> Prop :=
| translation_unparsed e :
    DexFile data = Raised e ->
    translation data opts classes errors s (Raised e) (parsed data s)
| translation_returned dex lc le s2 s' :
    DexFile data = Returned dex ->
    entry data classes errors s = (lc, le, s2) ->
    run (iteration opts lc le) dex s2 (Returned tt) s' ->
    translation data opts classes errors s (Returned (lc, le)) s'
| translation_aborted dex lc le s2 e s' :
    DexFile data = Returned dex ->
    entry data classes errors s = (lc, le, s2) ->
    run (iteration opts lc le) dex s2 (Raised e) s' ->
    translation data opts classes errors s (Raised e) s'.

(** A parameter that is given refers to an object that exists. *)
Definition allocated (s : state) (arg : option loc) : Prop :=
  match arg with
  | Some l => l < next s
  | None => True
  end.

(** ** What ends up in the mappings and in the archive *)

(** What a list of classes with distinct new names adds to the two
    mappings. *)
Definition translated (opts : Options) (cs : list Cls) : odict :=
  flat_map (fun cls =>
    match toClassFile cls opts with
    | Returned data => [(unicode_name_of cls, PyBytes data)]
    | Raised _ => []
    end) cs.

Definition failed (opts : Options) (cs : list Cls) : odict :=
  flat_map (fun cls =>
    match toClassFile cls opts with
    | Returned _ => []
    | Raised e => [(unicode_name_of cls, PyStr (format_exc e))]
    end) cs.

(** The values [translate] files: class files and tracebacks. *)
Definition filed (v : pyobj) : Prop :=
  match v with
  | PyInt _ => False
  | _ => True
  end.

(** The archive entry [writeToJar] writes for an item of the mapping. *)
Definition jar_entry (item : string * pyobj) : string * pyobj * compression :=
  match py_len (snd item) with
  | Returned size =>
      (fst item, snd item, if Z.ltb 10000 size then ZIP_DEFLATED else ZIP_STORED)
  | Raised _ => (fst item, snd item, ZIP_STORED)
  end.

End Vocabulary.

(** * Vocabulary of the further properties *)

Section MoreVocabulary.
Context {X : Collaborators}.

(** ** The output of [main] *)

(** The loop of [main] over the images (lines 92 and 93). *)
Definition translate_images (opts : Options) (classes errors : loc)
    (dexs : list bytes) : M unit :=
  for_each dexs (fun data =>
    translate data opts (Some classes) (Some errors) ;;; ret tt).

(** What [main] does once the archive is written (lines 96 to 100). *)
Definition main_report (outname : string) (classes errors : loc) : M unit :=
  print [PyStr "Output written to"; PyStr outname] ;;;
  let! failed := items errors in
  for_each (sorted_items failed) (fun '(name, error) => print [PyStr name; error]) ;;;
  let! n := len classes in
  let! m := len errors in
  print [PyStr (str_of_int n ++ " classes translated successfully, "
                ++ str_of_int m ++ " classes had errors")%string].

(** The [writestr] call for an item of the success mapping. *)
Definition jar_write (item : string * pyobj) : event :=
  let '(name, data, compress_type) := jar_entry item in
  WriteStr name data compress_type.

(** The line of the error report for an item of the error mapping. *)
Definition error_line (item : string * pyobj) : event :=
  Print [PyStr (fst item); snd item].

(** The last line [main] prints. *)
Definition summary_line (classes errors : odict) : event :=
  Print [PyStr (str_of_int (od_len classes)
                  ++ " classes translated successfully, "
                  ++ str_of_int (od_len errors) ++ " classes had errors")%string].

(** The names in the duplicate warnings found in a list of events. *)
Definition duplicate_warnings (evs : list event) : list string :=
  flat_map (fun ev =>
    match ev with
    | Print [PyStr text; PyStr name] =>
        if String.eqb text "Warning, duplicate class name" then [name] else []
    | _ => []
    end) evs.

(** No image and no class stops the run: every image parses, and a class
    that does not translate fails with an [Exception]. *)
Definition nothing_fatal (opts : Options) (dexs : list bytes) : Prop :=
  forall data, In data dexs ->
    exists dex,
      DexFile data = Returned dex
      /\ forall cls e, In cls dex -> toClassFile cls opts = Raised e ->
           is_Exception e = true.

End MoreVocabulary.

(** * The start of [main] (lines 55 to 87)

    What [main] does between the parsing of the command line and the
    translation: it loads the images, names the output file and opens it.
    Python 3.3 or later is assumed, so that the name [FileExistsError] exists
    and the test of lines 72 to 77 does nothing. *)

(** ** The string methods [main] uses *)

(** [s.startswith(prefix)] *)
Fixpoint startswith (s prefix : string) : bool :=
  match prefix, s with
  | EmptyString, _ => true
  | String c prefix', String d s' => Ascii.eqb c d && startswith s' prefix'
  | String _ _, EmptyString => false
  end.

(** [s.endswith(suffix)]: [suffix] is [s] or the end of what follows the
    first character of [s]. *)
Fixpoint endswith (s suffix : string) : bool :=
  String.eqb s suffix
  || match s with
     | EmptyString => false
     | String _ s' => endswith s' suffix
     end.

(** The last occurrence of the character [sep] in [s]: what is before it and
    what is after it. *)
Fixpoint rsplit (s : string) (sep : ascii) : option (string * string) :=
  match s with
  | EmptyString => None
  | String c s' =>
      match rsplit s' sep with
      | Some (head, tail) => Some (String c head, tail)
      | None => if Ascii.eqb c sep then Some (EmptyString, s') else None
      end
  end.

(** [s.rpartition(sep)] for a separator of one character: the part before
    the last [sep], [sep] itself and the part after it, or two empty strings
    and [s] when [sep] does not occur. *)
Definition rpartition (s : string) (sep : ascii) : string * string * string :=
  match rsplit s sep with
  | Some (head, tail) => (head, String sep EmptyString, tail)
  | None => (EmptyString, EmptyString, s)
  end.

(** [c] occurs in [s]. *)
Definition occurs (c : ascii) (s : string) : Prop :=
  In c (String.list_ascii_of_string s).

(** ** The command line and the files *)

(** The result of [parser.parse_args()]. *)
Record Args := mkArgs {
  inputfile : string;
  output : option string;
  force : bool;
  fast : bool;
}.

(** The result of [open(outname, mode)]: the file is open, or
    [FileExistsError] was raised, or another exception was. *)
Inductive open_result :=
| Opened
| AlreadyExists
| OpenFailed (e : exn).

(** The file system, as [main] sees it during one run. *)
Class Files := {
  (** [read(fname)]: the contents of the file, or the exception raised *)
  read : string -> outcome bytes;
  (** [zipfile.ZipFile(fname, 'r').namelist()] *)
  zip_namelist : string -> outcome (list string);
  (** [z.read(name)] for the archive [fname] *)
  zip_read : string -> string -> outcome bytes;
  (** [open(outname, mode='xb')] when [exclusive], [open(outname, mode='wb')]
      otherwise *)
  open_output : string -> bool -> open_result;
}.

Section Startup.
Context {X : Collaborators} {F : Files}.

(** The test of line 66. *)
Definition is_dex_entry (name : string) : bool :=
  startswith name "classes" && endswith name ".dex".

(** The loop of lines 65 to 67: the entries of the archive that pass the
    test are read in the order of [namelist()]; the first read that raises
    ends the loop. *)
Fixpoint read_entries (fname : string) (names : list string)
  : outcome (list bytes) :=
  match names with
  | [] => Returned []
  | name :: names' =>
      if is_dex_entry name then
        match zip_read fname name with
        | Raised e => Raised e
        | Returned data =>
            match read_entries fname names' with
            | Raised e => Raised e
            | Returned dexs => Returned (data :: dexs)
            end
        end
      else read_entries fname names'
  end.

(** Lines 62 to 69: the images of the input file. *)
Definition load_images (fname : string) : outcome (list bytes) :=
  if endswith fname "apk" then
    match zip_namelist fname with
    | Raised e => Raised e
    | Returned names => read_entries fname names
    end
  else
    match read fname with
    | Raised e => Raised e
    | Returned data => Returned [data]
    end.

(** [inputfile.rpartition('/')[-1].rpartition('.')[0] + '-enjarify.jar'] *)
Definition default_output_name (fname : string) : string :=
  (fst (fst (rpartition (snd (rpartition fname "/")) ".")) ++ "-enjarify.jar")%string.

(** Line 81: [args.output or ...]; an empty string counts as no output
    name. *)
Definition output_name (a : Args) : string :=
  match output a with
  | Some name => if String.eqb name "" then default_output_name (inputfile a) else name
  | None => default_output_name (inputfile a)
  end.

(** [main], from the loading of the images on. *)
Definition main_from_args (a : Args) : M unit :=
  let! dexs := lift (load_images (inputfile a)) in
  let outname := output_name a in
  match open_output outname (negb (force a)) with
  | AlreadyExists =>
      print [PyStr "Error, output file already exists and --force was not specified."] ;;;
      print [PyStr "To overwrite the output file, pass -f or --force."]
  | OpenFailed e => lift (Raised e)
  | Opened => main (fast a) outname dexs
  end.

End Startup.

(** ** A small concrete file system

    Used, with the collaborators of [Toy], to run the start of [main] on
    concrete inputs: an application archive with two images among its
    entries, a lone image file, and an output file that exists already. *)
Module ToyFiles.
Import Toy.

Definition NoSuchFile : exn := mkExn true "FileNotFoundError".
Definition NotAnArchive : exn := mkExn true "zipfile.BadZipFile".
Definition NoSuchEntry : exn := mkExn true "KeyError".

Definition apk_entries : list (string * bytes) :=
  [("AndroidManifest.xml", [B]);
   ("classes.dex", [A; X]);
   ("res/classes.png", [B]);
   ("classes2.dex", [B; A])].

Definition files : Files := {|
  read := fun fname =>
    if String.eqb fname "classes.dex" then Returned [A; X] else Raised NoSuchFile;
  zip_namelist := fun fname =>
    if String.eqb fname "apps/my.app.apk" then Returned (map fst apk_entries)
    else Raised NotAnArchive;
  zip_read := fun fname name =>
    match find (fun entry => String.eqb (fst entry) name) apk_entries with
    | Some entry => Returned (snd entry)
    | None => Raised NoSuchEntry
    end;
  open_output := fun outname exclusive =>
    if exclusive && String.eqb outname "my.app-enjarify.jar" then AlreadyExists
    else Opened;
|}.

(** A store in which mapping [0] holds 999 entries already and mapping [1]
    none. *)
Definition crowded : state (X := collaborators) :=
  mkState
    (fun l =>
       if Nat.eqb l 0
       then map (fun n => (str_of_int (Z.of_nat n), PyBytes [])) (seq 0 999)
       else [])
    2 [].

End ToyFiles.

(** * Properties *)

(** ** Ordered dictionaries *)

Lemma od_contains_In k d : od_contains k d = true <-> In k (od_keys d).
Proof.
  unfold od_contains. rewrite existsb_exists. split.
  - intros (x & Hx & Heq). apply String.eqb_eq in Heq. by subst.
  - intros H. exists k. split; [done | apply String.eqb_refl].
Qed.

Lemma od_contains_not_In k d : od_contains k d = false <-> ~ In k (od_keys d).
Proof.
  rewrite <- od_contains_In. by destruct (od_contains k d).
Qed.

Lemma od_set_fresh k v d : od_contains k d = false -> od_set k v d = d ++ [(k, v)].
Proof.
  induction d as [|[k' v'] d IH]; simpl; [done|].
  unfold od_contains. simpl. intros H. apply orb_false_elim in H as [Hk Hd].
  rewrite Hk. f_equal. by apply IH.
Qed.

Lemma od_keys_app d1 d2 : od_keys (d1 ++ d2) = od_keys d1 ++ od_keys d2.
Proof. unfold od_keys. apply map_app. Qed.

Lemma od_get_app_l k v d1 d2 : od_get k d1 = Some v -> od_get k (d1 ++ d2) = Some v.
Proof.
  induction d1 as [|[k' v'] d1 IH]; simpl; [done|].
  by destruct (String.eqb k k').
Qed.

Lemma od_get_fresh k v d : od_contains k d = false -> od_get k (d ++ [(k, v)]) = Some v.
Proof.
  induction d as [|[k' v'] d IH]; simpl.
  - by rewrite String.eqb_refl.
  - unfold od_contains. simpl. intros H. apply orb_false_elim in H as [Hk Hd].
    rewrite Hk. by apply IH.
Qed.

Lemma od_disjoint_nil_l e : od_disjoint [] e.
Proof. intros k []. Qed.

Lemma od_disjoint_nil_r c : od_disjoint c [].
Proof. intros k _ []. Qed.

Lemma upd_eq l d h : upd l d h l = d.
Proof. unfold upd. by rewrite Nat.eqb_refl. Qed.

Lemma upd_ne l l' d h : l' <> l -> upd l d h l' = h l'.
Proof. unfold upd. intros H. apply Nat.eqb_neq in H. by rewrite H. Qed.

Section Properties.
Context {X : Collaborators}.

(** ** The events of a run *)

Lemma new_events_app s s' evs : trace s' = trace s ++ evs -> new_events s s' = evs.
Proof. unfold new_events. intros ->. by rewrite drop_app_length. Qed.

(** ** One iteration of the loop, case by case *)

(** The name is already a key of one of the two mappings: a warning, and
    nothing else happens. *)
Lemma loop_body_duplicate opts lc le cls s :
  od_contains (unicode_name_of cls) (heap s lc)
    || od_contains (unicode_name_of cls) (heap s le) = true ->
  loop_body opts lc le cls s =
    (Returned tt,
     mkState (heap s) (next s)
       (trace s ++ [CallDecode (cls_name cls);
                    duplicate_warning (unicode_name_of cls)])).
Proof.
  intros H. unfold loop_body, call_decode, contains, print, emit, bind, ret.
  simpl. fold (unicode_name_of cls).
  destruct (od_contains (unicode_name_of cls) (heap s lc)); simpl in *.
  - by rewrite <- app_assoc.
  - rewrite H. simpl. by rewrite <- app_assoc.
Qed.

(** A new name whose class translates: the class goes to the end of
    [classes]. *)
Lemma loop_body_success opts lc le cls s data :
  od_contains (unicode_name_of cls) (heap s lc) = false ->
  od_contains (unicode_name_of cls) (heap s le) = false ->
  toClassFile cls opts = Returned data ->
  let h' := upd lc (heap s lc ++ [(unicode_name_of cls, PyBytes data)]) (heap s) in
  loop_body opts lc le cls s =
    (Returned tt,
     mkState h' (next s)
       (trace s ++ [CallDecode (cls_name cls); CallToClassFile cls opts]
                ++ progress_report (h' lc) (h' le))).
Proof.
  intros Hc He Hd h'.
  unfold loop_body, call_decode, call_toClassFile, try_except_Exception,
    contains, setitem, len, print, emit, lift, bind, ret.
  simpl. fold (unicode_name_of cls). rewrite Hc. simpl. rewrite He. simpl.
  rewrite Hd. simpl.
  rewrite (od_set_fresh _ _ _ Hc). fold h'. unfold progress_report.
  destruct (Z.eqb _ 0); simpl; rewrite <- ?app_assoc; simpl; done.
Qed.

(** A new name whose class fails with an [Exception]: the traceback goes to
    the end of [errors]. *)
Lemma loop_body_failure opts lc le cls s e :
  od_contains (unicode_name_of cls) (heap s lc) = false ->
  od_contains (unicode_name_of cls) (heap s le) = false ->
  toClassFile cls opts = Raised e ->
  is_Exception e = true ->
  let h' := upd le (heap s le ++ [(unicode_name_of cls, PyStr (format_exc e))]) (heap s) in
  loop_body opts lc le cls s =
    (Returned tt,
     mkState h' (next s)
       (trace s ++ [CallDecode (cls_name cls); CallToClassFile cls opts]
                ++ progress_report (h' lc) (h' le))).
Proof.
  intros Hc He Hd Hex h'.
  unfold loop_body, call_decode, call_toClassFile, try_except_Exception,
    contains, setitem, len, print, emit, lift, bind, ret.
  simpl. fold (unicode_name_of cls). rewrite Hc. simpl. rewrite He. simpl.
  rewrite Hd. simpl. rewrite Hex. simpl.
  rewrite (od_set_fresh _ _ _ He). fold h'. unfold progress_report.
  destruct (Z.eqb _ 0); simpl; rewrite <- ?app_assoc; simpl; done.
Qed.

(** A new name whose translation raises something that is not an
    [Exception]: nothing catches it. *)
Lemma loop_body_abort opts lc le cls s e :
  od_contains (unicode_name_of cls) (heap s lc) = false ->
  od_contains (unicode_name_of cls) (heap s le) = false ->
  toClassFile cls opts = Raised e ->
  is_Exception e = false ->
  loop_body opts lc le cls s =
    (Raised e,
     mkState (heap s) (next s)
       (trace s ++ [CallDecode (cls_name cls); CallToClassFile cls opts])).
Proof.
  intros Hc He Hd Hex.
  unfold loop_body, call_decode, call_toClassFile, try_except_Exception,
    contains, setitem, len, print, emit, lift, bind, ret.
  simpl. fold (unicode_name_of cls). rewrite Hc. simpl. rewrite He. simpl.
  rewrite Hd. simpl. rewrite Hex. simpl.
  by rewrite <- app_assoc.
Qed.

Lemma loop_body_iteration opts lc le cls s r s' :
  loop_body opts lc le cls s = (r, s') -> iteration opts lc le cls s r s'.
Proof.
  intros Hrun.
  destruct (od_contains (unicode_name_of cls) (heap s lc)) eqn:Hc.
  { rewrite loop_body_duplicate in Hrun by (by rewrite Hc).
    injection Hrun as <- <-. constructor. left. by apply od_contains_In. }
  destruct (od_contains (unicode_name_of cls) (heap s le)) eqn:He.
  { rewrite loop_body_duplicate in Hrun by (by rewrite Hc, He).
    injection Hrun as <- <-. constructor. right. by apply od_contains_In. }
  pose proof (proj1 (od_contains_not_In _ _) Hc) as Hc'.
  pose proof (proj1 (od_contains_not_In _ _) He) as He'.
  destruct (toClassFile cls opts) as [data|e] eqn:Hd.
  { rewrite (loop_body_success _ _ _ _ _ data) in Hrun by done.
    injection Hrun as <- <-. by eapply iteration_success. }
  destruct (is_Exception e) eqn:Hex.
  - rewrite (loop_body_failure _ _ _ _ _ e) in Hrun by done.
    injection Hrun as <- <-. by eapply iteration_failure.
  - rewrite (loop_body_abort _ _ _ _ _ e) in Hrun by done.
    injection Hrun as <- <-. by eapply iteration_abort.
Qed.

(** ** The loop as a sequence of iterations *)

Lemma for_each_cons {A} (x : A) l body s :
  for_each (x :: l) body s =
    match body x s with
    | (Returned _, s1) => for_each l body s1
    | (Raised e, s1) => (Raised e, s1)
    end.
Proof. reflexivity. Qed.

Lemma for_each_run {A} (body : A -> M unit) step l :
  (forall x s r s', In x l -> body x s = (r, s') -> step x s r s') ->
  forall s r s', for_each l body s = (r, s') -> run step l s r s'.
Proof.
  induction l as [|x l IH]; intros Hstep s r s' Hrun.
  - injection Hrun as <- <-. constructor.
  - rewrite for_each_cons in Hrun.
    destruct (body x s) as [[[]|e] s1] eqn:Hx.
    + eapply run_next.
      * apply Hstep; [by left | done].
      * apply IH; [|done]. intros. apply Hstep; [by right | done].
    + injection Hrun as <- <-. apply run_raise. apply Hstep; [by left | done].
Qed.

Lemma loop_run opts lc le cs s r s' :
  for_each cs (loop_body opts lc le) s = (r, s') ->
  run (iteration opts lc le) cs s r s'.
Proof.
  apply for_each_run. intros. by apply loop_body_iteration.
Qed.

(** ** What an iteration does to the store *)

Lemma extends_refl s : extends s s.
Proof. split; [done|]. intros l. reflexivity. Qed.

Lemma extends_trans s1 s2 s3 : extends s1 s2 -> extends s2 s3 -> extends s1 s3.
Proof.
  intros [Hn1 Hh1] [Hn2 Hh2]. split; [congruence|].
  intros l. etrans; [apply Hh1 | apply Hh2].
Qed.

Lemma prefix_upd_app l d h l' :
  h l' `prefix_of` upd l (h l ++ d) h l'.
Proof.
  destruct (Nat.eq_dec l' l) as [->|Hne].
  - rewrite upd_eq. by apply prefix_app_r.
  - by rewrite upd_ne.
Qed.

Lemma iteration_extends opts lc le cls s r s' :
  iteration opts lc le cls s r s' -> extends s s'.
Proof.
  destruct 1; subst; split; simpl; try done;
    intros l; try reflexivity; apply prefix_upd_app.
Qed.

(** Only the two mappings of the call are written. *)
Lemma iteration_frame opts lc le cls s r s' l :
  iteration opts lc le cls s r s' -> l <> lc -> l <> le -> heap s' l = heap s l.
Proof.
  destruct 1; subst; simpl; intros; try done; by rewrite upd_ne.
Qed.

(** A key that appears is the name of the class of the iteration. *)
Lemma iteration_keys opts lc le cls s r s' l k :
  iteration opts lc le cls s r s' ->
  In k (od_keys (heap s' l)) ->
  In k (od_keys (heap s l)) \/ k = unicode_name_of cls.
Proof.
  destruct 1 as [ |data h' ? ? ? ->|e h' ? ? ? ? ->| ]; simpl; auto.
  - destruct (Nat.eq_dec l lc) as [->|Hne]; [|rewrite upd_ne by done; auto].
    rewrite upd_eq, od_keys_app, in_app_iff. simpl. intuition.
  - destruct (Nat.eq_dec l le) as [->|Hne]; [|rewrite upd_ne by done; auto].
    rewrite upd_eq, od_keys_app, in_app_iff. simpl. intuition.
Qed.

(** With two distinct mappings, no key gets into both. *)
Lemma iteration_disjoint opts lc le cls s r s' :
  lc <> le ->
  iteration opts lc le cls s r s' ->
  od_disjoint (heap s lc) (heap s le) ->
  od_disjoint (heap s' lc) (heap s' le).
Proof.
  intros Hne Hit Hdis.
  destruct Hit as [ |data h' Hc He ? ->|e h' Hc He ? ? ->| ]; simpl; try done.
  - rewrite upd_eq, upd_ne by done. intros k.
    rewrite od_keys_app, in_app_iff. simpl.
    intros [Hk|[<-|[]]] Hk'; [by eapply Hdis | done].
  - rewrite upd_eq, upd_ne by done. intros k.
    rewrite od_keys_app, in_app_iff. simpl.
    intros Hk [Hk'|[<-|[]]]; [by eapply Hdis | done].
Qed.

(** ** What an iteration adds to the trace *)

Lemma progress_report_calls c e :
  decode_calls (progress_report c e) = []
  /\ dexfile_calls (progress_report c e) = []
  /\ toClassFile_calls (progress_report c e) = []
  /\ written (progress_report c e) = [].
Proof. unfold progress_report. by destruct (Z.eqb _ 0). Qed.

(** The events of one iteration: one call to [decode], on the name of the
    class; at most one call to [toClassFile], on the class and with the
    options of the call, and none when the name is already a key; no image is
    parsed and nothing is written. *)
Lemma iteration_trace opts lc le cls s r s' :
  iteration opts lc le cls s r s' ->
  exists evs,
    trace s' = trace s ++ evs
    /\ decode_calls evs = [cls_name cls]
    /\ dexfile_calls evs = []
    /\ written evs = []
    /\ (toClassFile_calls evs = []
        \/ toClassFile_calls evs = [(cls, opts)]
           /\ ~ In (unicode_name_of cls) (od_keys (heap s lc))
           /\ ~ In (unicode_name_of cls) (od_keys (heap s le))).
Proof.
  destruct 1; subst; eexists; (split; [reflexivity|]); simpl;
    unfold decode_calls, dexfile_calls, toClassFile_calls, written;
    rewrite ?flat_map_app; simpl;
    repeat match goal with
    | |- context [progress_report ?c ?e] =>
        destruct (progress_report_calls c e) as (Hp1 & Hp2 & Hp3 & Hp4);
        unfold decode_calls, dexfile_calls, toClassFile_calls, written in Hp1, Hp2, Hp3, Hp4;
        rewrite ?Hp1, ?Hp2, ?Hp3, ?Hp4
    end; auto 10.
Qed.

(** ** The whole loop *)

Lemma extends_keys s s' l k :
  extends s s' -> In k (od_keys (heap s l)) -> In k (od_keys (heap s' l)).
Proof.
  intros [_ Hh] Hk. destruct (Hh l) as [d ->].
  rewrite od_keys_app, in_app_iff. by left.
Qed.

Lemma extends_get s s' l k v :
  extends s s' -> od_get k (heap s l) = Some v -> od_get k (heap s' l) = Some v.
Proof.
  intros [_ Hh] Hk. destruct (Hh l) as [d ->]. by apply od_get_app_l.
Qed.

Lemma run_extends opts lc le cs s r s' :
  run (iteration opts lc le) cs s r s' -> extends s s'.
Proof.
  induction 1 as [s|cls cs s s1 r s2 Hit _ IH|cls cs s e s1 Hit].
  - apply extends_refl.
  - eapply extends_trans; [by eapply iteration_extends | done].
  - by eapply iteration_extends.
Qed.

Lemma run_frame opts lc le cs s r s' l :
  run (iteration opts lc le) cs s r s' -> l <> lc -> l <> le -> heap s' l = heap s l.
Proof.
  induction 1 as [s|cls cs s s1 r s2 Hit _ IH|cls cs s e s1 Hit]; intros Hc He.
  - done.
  - rewrite IH by done. by eapply iteration_frame.
  - by eapply iteration_frame.
Qed.

Lemma run_keys opts lc le cs s r s' l k :
  run (iteration opts lc le) cs s r s' ->
  In k (od_keys (heap s' l)) ->
  In k (od_keys (heap s l)) \/ exists cls, In cls cs /\ k = unicode_name_of cls.
Proof.
  induction 1 as [s|cls cs s s1 r s2 Hit _ IH|cls cs s e s1 Hit]; intros Hk.
  - by left.
  - destruct (IH Hk) as [Hk1|(c & Hc & ->)].
    + destruct (iteration_keys _ _ _ _ _ _ _ _ _ Hit Hk1) as [?| ->]; [by left|].
      right. exists cls. split; [by left | done].
    + right. exists c. split; [by right | done].
  - destruct (iteration_keys _ _ _ _ _ _ _ _ _ Hit Hk) as [?| ->]; [by left|].
    right. exists cls. split; [by left | done].
Qed.

Lemma run_disjoint opts lc le cs s r s' :
  lc <> le ->
  run (iteration opts lc le) cs s r s' ->
  od_disjoint (heap s lc) (heap s le) ->
  od_disjoint (heap s' lc) (heap s' le).
Proof.
  intros Hne. induction 1 as [s|cls cs s s1 r s2 Hit _ IH|cls cs s e s1 Hit]; intros Hd.
  - done.
  - apply IH. by eapply iteration_disjoint.
  - by eapply iteration_disjoint.
Qed.

(** The events of the loop: [decode] is called once per class reached, in
    order; [toClassFile] only on classes of the list whose name was in
    neither mapping when the loop started, and with the options of the
    call. *)
Lemma run_trace opts lc le cs s r s' :
  run (iteration opts lc le) cs s r s' ->
  exists evs,
    trace s' = trace s ++ evs
    /\ decode_calls evs `prefix_of` map cls_name cs
    /\ (r = Returned tt -> decode_calls evs = map cls_name cs)
    /\ dexfile_calls evs = []
    /\ written evs = []
    /\ (forall c o, In (c, o) (toClassFile_calls evs) ->
          o = opts /\ In c cs
          /\ ~ In (unicode_name_of c) (od_keys (heap s lc))
          /\ ~ In (unicode_name_of c) (od_keys (heap s le))).
Proof.
  induction 1 as [s|cls cs s s1 r s2 Hit Hrun IH|cls cs s e s1 Hit].
  - exists []. rewrite app_nil_r. simpl. repeat split; try done.
  - destruct (iteration_trace _ _ _ _ _ _ _ Hit) as (ev1 & Ht1 & Hd1 & Hx1 & Hw1 & Hc1).
    destruct IH as (ev2 & Ht2 & Hd2 & Hr2 & Hx2 & Hw2 & Hc2).
    pose proof (iteration_extends _ _ _ _ _ _ _ Hit) as Hext.
    exists (ev1 ++ ev2). rewrite Ht2, Ht1, <- app_assoc.
    unfold decode_calls, dexfile_calls, written, toClassFile_calls in *.
    rewrite !flat_map_app, Hd1, Hx1, Hx2, Hw1, Hw2. simpl.
    split; [done|]. split; [by apply prefix_cons|].
    split; [intros Hr; by rewrite Hr2|].
    split; [done|]. split; [done|].
    intros c o Hin. apply in_app_iff in Hin as [Hin|Hin].
    + destruct Hc1 as [Hc1|(Hc1 & ? & ?)]; rewrite Hc1 in Hin; [done|].
      destruct Hin as [[= <- <-]|[]]. repeat split; auto; by left.
    + apply Hc2 in Hin as (-> & ? & Hn1 & Hn2).
      split; [done|]. split; [by right|].
      split; intros Hk; [apply Hn1 | apply Hn2]; by eapply extends_keys.
  - destruct (iteration_trace _ _ _ _ _ _ _ Hit) as (ev1 & Ht1 & Hd1 & Hx1 & Hw1 & Hc1).
    exists ev1.
    split; [done|]. split; [rewrite Hd1; simpl; apply prefix_cons, prefix_nil|].
    split; [done|]. split; [done|]. split; [done|].
    intros c o Hin.
    destruct Hc1 as [Hc1|(Hc1 & ? & ?)]; rewrite Hc1 in Hin; [done|].
    destruct Hin as [[= <- <-]|[]]. repeat split; auto; by left.
Qed.

(** ** [translate] as a whole *)

Lemma translate_raises data opts classes errors s e :
  DexFile data = Raised e ->
  translate data opts classes errors s = (Raised e, parsed data s).
Proof.
  intros H. unfold translate, call_DexFile, emit, lift, bind. simpl. by rewrite H.
Qed.

Lemma translate_loop data opts classes errors s dex :
  DexFile data = Returned dex ->
  translate data opts classes errors s =
    let '(lc, le, s2) := entry data classes errors s in
    match for_each dex (loop_body opts lc le) s2 with
    | (Returned _, s3) => (Returned (lc, le), s3)
    | (Raised e, s3) => (Raised e, s3)
    end.
Proof.
  intros H. unfold translate, entry, mapping_of, parsed, call_DexFile,
    new_OrderedDict, emit, lift, bind, ret.
  simpl. rewrite H. by destruct classes, errors; simpl.
Qed.

Lemma translate_translation data opts classes errors s r s' :
  translate data opts classes errors s = (r, s') ->
  translation data opts classes errors s r s'.
Proof.
  intros Hrun. destruct (DexFile data) as [dex|e] eqn:Hdex.
  - rewrite (translate_loop _ _ _ _ _ dex) in Hrun by done.
    destruct (entry data classes errors s) as [[lc le] s2] eqn:Hentry.
    destruct (for_each dex (loop_body opts lc le) s2) as [[[]|e] s3] eqn:Hloop;
      injection Hrun as <- <-; apply loop_run in Hloop.
    + by eapply translation_returned.
    + by eapply translation_aborted.
  - rewrite (translate_raises _ _ _ _ _ e) in Hrun by done.
    injection Hrun as <- <-. by constructor.
Qed.

Lemma entry_spec data classes errors s lc le s2 :
  entry data classes errors s = (lc, le, s2) ->
  trace s2 = trace s ++ [CallDexFile data]
  /\ next s <= next s2
  /\ (forall l, l < next s -> heap s2 l = heap s l)
  /\ match classes with
     | Some c => lc = c
     | None => next s <= lc /\ heap s2 lc = []
     end
  /\ match errors with
     | Some e => le = e
     | None => next s <= le /\ heap s2 le = []
     end
  /\ (allocated s classes -> allocated s errors ->
      classes = None \/ errors = None -> lc <> le).
Proof.
  unfold entry, mapping_of, parsed, allocated.
  destruct classes as [c|], errors as [e|]; simpl; intros [= <- <- <-]; simpl;
    repeat split; try done; try lia; intros;
    repeat (rewrite upd_eq || rewrite upd_ne by lia); try done; try lia.
  all: match goal with H : _ \/ _ |- _ => by destruct H end.
Qed.

(** What a call of [translate] does to the objects that existed before it:
    they keep their entries, and only the mappings given are written. *)
Lemma translation_extends data opts classes errors s r s' :
  translation data opts classes errors s r s' ->
  next s <= next s'
  /\ (forall l, l < next s -> heap s l `prefix_of` heap s' l)
  /\ (forall l, l < next s -> classes <> Some l -> errors <> Some l ->
        heap s' l = heap s l).
Proof.
  assert (Hloop : forall dex lc le s2 r0,
    entry data classes errors s = (lc, le, s2) ->
    run (iteration opts lc le) dex s2 r0 s' ->
    next s <= next s'
    /\ (forall l, l < next s -> heap s l `prefix_of` heap s' l)
    /\ (forall l, l < next s -> classes <> Some l -> errors <> Some l ->
          heap s' l = heap s l)).
  { intros dex lc le s2 r0 Hentry Hrun.
    destruct (entry_spec _ _ _ _ _ _ _ Hentry) as (_ & Hn & Hh & Hc & He & _).
    pose proof (run_extends _ _ _ _ _ _ _ Hrun) as [Hn' Hh'].
    split; [lia|]. split.
    - intros l Hl. rewrite <- (Hh l Hl). apply Hh'.
    - intros l Hl Hlc Hle. rewrite <- (Hh l Hl).
      eapply run_frame; [done| |].
      + destruct classes; simpl in *; [intros ->; by subst | destruct Hc; lia].
      + destruct errors; simpl in *; [intros ->; by subst | destruct He; lia]. }
  destruct 1; [|by eapply Hloop..].
  simpl. repeat split; try done.
Qed.

(** ** Frame of the two mappings *)

(** C10: [translate] only appends to the mappings it is given and returns
    those same mappings.  Every mapping that exists before the call is, after
    it, its old contents followed by what was added (so no key is removed and
    no value changed), mappings other than the two given are left alone, and
    the pair returned consists of the very objects given; a parameter left
    out is replaced by a newly created mapping, which starts empty: all it
    holds at the end are names of classes of the image. *)
Theorem translate_only_appends data opts classes errors s r s' :
  translate data opts classes errors s = (r, s') ->
  (forall l, l < next s -> heap s l `prefix_of` heap s' l)
  /\ (forall l k v, l < next s ->
        od_get k (heap s l) = Some v -> od_get k (heap s' l) = Some v)
  /\ (forall l k, l < next s ->
        In k (od_keys (heap s l)) -> In k (od_keys (heap s' l)))
  /\ (forall l, l < next s -> classes <> Some l -> errors <> Some l ->
        heap s' l = heap s l)
  /\ (forall lc le, r = Returned (lc, le) ->
        match classes with
        | Some c => lc = c
        | None =>
            next s <= lc < next s'
            /\ forall k, In k (od_keys (heap s' lc)) ->
                 exists dex cls, DexFile data = Returned dex /\ In cls dex
                                 /\ k = unicode_name_of cls
        end
        /\ match errors with
           | Some e => le = e
           | None =>
               next s <= le < next s'
               /\ forall k, In k (od_keys (heap s' le)) ->
                    exists dex cls, DexFile data = Returned dex /\ In cls dex
                                    /\ k = unicode_name_of cls
           end).
Proof.
  intros Hrun. apply translate_translation in Hrun.
  destruct (translation_extends _ _ _ _ _ _ _ Hrun) as (Hn & Hpre & Hframe).
  split; [done|]. split; [|split; [|split; [done|]]].
  - intros l k v Hl. destruct (Hpre l Hl) as [d ->]. apply od_get_app_l.
  - intros l k Hl. destruct (Hpre l Hl) as [d ->].
    rewrite od_keys_app, in_app_iff. by left.
  - intros lc le ->. inversion Hrun as [|dex lc' le' s2 s'' Hdex Hentry Hloop|]; subst.
    destruct (entry_spec _ _ _ _ _ _ _ Hentry) as (_ & Hn2 & _ & Hc & He & _).
    pose proof (run_extends _ _ _ _ _ _ _ Hloop) as [Hn' _].
    split.
    + destruct classes as [c|]; [done|]. destruct Hc as [Hlc Hempty]. split.
      * split; [done|]. rewrite Hn'. clear -Hentry.
        unfold entry, mapping_of, parsed in Hentry.
        destruct errors; simpl in Hentry; injection Hentry as <- <- <-; simpl; lia.
      * intros k Hk. destruct (run_keys _ _ _ _ _ _ _ _ _ Hloop Hk) as [Hk'|(cls & ? & ?)].
        -- by rewrite Hempty in Hk'.
        -- by exists dex, cls.
    + destruct errors as [e|]; [done|]. destruct He as [Hle Hempty]. split.
      * split; [done|]. rewrite Hn'. clear -Hentry.
        unfold entry, mapping_of, parsed in Hentry.
        destruct classes; simpl in Hentry; injection Hentry as <- <- <-; simpl; lia.
      * intros k Hk. destruct (run_keys _ _ _ _ _ _ _ _ _ Hloop Hk) as [Hk'|(cls & ? & ?)].
        -- by rewrite Hempty in Hk'.
        -- by exists dex, cls.
Qed.

Lemma entry_keys data classes errors s lc le s2 l k :
  entry data classes errors s = (lc, le, s2) ->
  In k (od_keys (heap s2 l)) -> In k (od_keys (heap s l)).
Proof.
  unfold entry, mapping_of, parsed.
  destruct classes as [c|], errors as [e|]; simpl; intros [= <- <- <-]; simpl;
    unfold upd; repeat case_match; done.
Qed.

(** ** Disjointness of the two mappings *)

(** C2: no class name is a key of both mappings.  For two distinct mapping
    objects this is an invariant of every iteration of the loop (first part),
    hence of every call of [translate], however the call ends (second part):
    the mappings given stay disjoint, and the mappings returned are distinct
    and disjoint, in particular when [translate] created them itself. *)
Theorem translate_keeps_mappings_disjoint
    opts lc le cls s1 r1 s1' data classes errors s r s' :
  (lc <> le ->
   od_disjoint (heap s1 lc) (heap s1 le) ->
   loop_body opts lc le cls s1 = (r1, s1') ->
   od_disjoint (heap s1' lc) (heap s1' le))
  /\ (allocated s classes -> allocated s errors ->
      (forall c e, classes = Some c -> errors = Some e ->
         c <> e /\ od_disjoint (heap s c) (heap s e)) ->
      translate data opts classes errors s = (r, s') ->
      (forall c e, classes = Some c -> errors = Some e ->
         od_disjoint (heap s' c) (heap s' e))
      /\ (forall c e, r = Returned (c, e) ->
           c <> e /\ od_disjoint (heap s' c) (heap s' e))).
Proof.
  split.
  { intros Hne Hdis Hrun. apply loop_body_iteration in Hrun.
    by eapply iteration_disjoint. }
  intros Hac Hae Hpre Hrun. apply translate_translation in Hrun.
  assert (Hloop : forall dex c e s2 r0,
    entry data classes errors s = (c, e, s2) ->
    run (iteration opts c e) dex s2 r0 s' ->
    c <> e /\ od_disjoint (heap s' c) (heap s' e)).
  { intros dex c e s2 r0 Hentry Hloop.
    destruct (entry_spec _ _ _ _ _ _ _ Hentry) as (_ & _ & Hh & Hc & He & Hne).
    assert (c <> e /\ od_disjoint (heap s2 c) (heap s2 e)) as [Hce Hdis].
    { destruct classes as [c'|], errors as [e'|]; simpl in *.
      - rewrite Hc, He. destruct (Hpre c' e' eq_refl eq_refl) as [Hce Hdis].
        split; [done|]. by rewrite !Hh.
      - destruct He as [_ ->]. split; [apply Hne; auto | apply od_disjoint_nil_r].
      - destruct Hc as [_ ->]. split; [apply Hne; auto | apply od_disjoint_nil_l].
      - destruct Hc as [_ ->]. split; [apply Hne; auto | apply od_disjoint_nil_l]. }
    split; [done|]. by eapply run_disjoint. }
  assert (Hgiven : forall dex c e s2 r0,
    entry data classes errors s = (c, e, s2) ->
    run (iteration opts c e) dex s2 r0 s' ->
    forall c' e', classes = Some c' -> errors = Some e' ->
    od_disjoint (heap s' c') (heap s' e')).
  { intros dex c e s2 r0 Hentry Hrun' c' e' -> ->.
    destruct (Hloop _ _ _ _ _ Hentry Hrun') as [_ Hdis].
    by injection Hentry as <- <- _. }
  destruct Hrun as [e Hdex|dex c e s2 s' Hdex Hentry Hrun|dex c e s2 e0 s' Hdex Hentry Hrun].
  - split; [|done]. intros c e' Hc He. by apply Hpre.
  - split; [by eapply Hgiven|]. intros ? ? [= <- <-]. by eapply Hloop.
  - split; [by eapply Hgiven | done].
Qed.

(** ** The keys of the mappings *)

(** C8: every key of the two mappings that [translate] returns is
    [decode(cls.name) + '.class'] for a class [cls] of the image, unless it
    was already a key of a mapping passed in; with no mapping passed in, every
    key is of that form. *)
Theorem mapping_keys_are_decoded_names data opts classes errors s lc le s' k :
  translate data opts classes errors s = (Returned (lc, le), s') ->
  In k (od_keys (heap s' lc)) \/ In k (od_keys (heap s' le)) ->
  (exists dex cls,
     DexFile data = Returned dex /\ In cls dex
     /\ k = (decode (cls_name cls) ++ ".class")%string)
  \/ (exists l, (classes = Some l \/ errors = Some l)
               /\ In k (od_keys (heap s l))).
Proof.
  intros Hrun Hk. apply translate_translation in Hrun.
  inversion Hrun as [|dex lc' le' s2 s'' Hdex Hentry Hloop|]; subst.
  destruct (entry_spec _ _ _ _ _ _ _ Hentry) as (_ & _ & _ & Hc & He & _).
  assert (Hfrom : forall l, In k (od_keys (heap s' l)) ->
    In k (od_keys (heap s2 l)) \/
    exists dex cls, DexFile data = Returned dex /\ In cls dex
                    /\ k = unicode_name_of cls).
  { intros l Hl. destruct (run_keys _ _ _ _ _ _ _ _ _ Hloop Hl) as [?|(cls & ? & ?)];
      [by left | right; by exists dex, cls]. }
  destruct Hk as [Hk|Hk]; apply Hfrom in Hk as [Hk|Hk]; try by left.
  - right. destruct classes as [c|]; [subst | destruct Hc as [_ Hc]; by rewrite Hc in Hk].
    exists c. split; [by left | by eapply entry_keys].
  - right. destruct errors as [e|]; [subst | destruct He as [_ He]; by rewrite He in Hk].
    exists e. split; [by right | by eapply entry_keys].
Qed.

(** ** Isolation of a failing class *)

(** Over classes with distinct names, none of them a key yet, and as long as
    every failure is an [Exception], the loop runs to its end and files every
    class, each in the mapping of its outcome and in the order of the list. *)
Lemma loop_distinct opts lc le cs :
  lc <> le ->
  forall s,
  List.NoDup (map unicode_name_of cs) ->
  (forall cls, In cls cs ->
     ~ In (unicode_name_of cls) (od_keys (heap s lc))
     /\ ~ In (unicode_name_of cls) (od_keys (heap s le))) ->
  (forall cls e, In cls cs -> toClassFile cls opts = Raised e -> is_Exception e = true) ->
  exists s',
    for_each cs (loop_body opts lc le) s = (Returned tt, s')
    /\ heap s' lc = heap s lc ++ translated opts cs
    /\ heap s' le = heap s le ++ failed opts cs.
Proof.
  intros Hne. induction cs as [|cls cs IH]; intros s Hnd Hnew Hexc.
  { exists s. simpl. by rewrite !app_nil_r. }
  simpl in Hnd. apply List.NoDup_cons_iff in Hnd as [Hcls Hnd].
  destruct (Hnew cls (or_introl eq_refl)) as [Hc He].
  apply od_contains_not_In in Hc, He.
  assert (Hrest : forall s1,
    (forall l k, In k (od_keys (heap s1 l)) ->
       In k (od_keys (heap s l)) \/ k = unicode_name_of cls) ->
    forall c, In c cs ->
      ~ In (unicode_name_of c) (od_keys (heap s1 lc))
      /\ ~ In (unicode_name_of c) (od_keys (heap s1 le))).
  { intros s1 Hs1 c Hin. destruct (Hnew c (or_intror Hin)) as [Hc1 He1].
    assert (unicode_name_of c <> unicode_name_of cls) as Hdiff.
    { intros Heq. apply Hcls. rewrite <- Heq. by apply in_map. }
    split; intros Hk; apply Hs1 in Hk as [Hk|Hk]; done. }
  rewrite for_each_cons. unfold translated, failed. simpl.
  fold (translated opts cs). fold (failed opts cs).
  destruct (toClassFile cls opts) as [data|e] eqn:Hd.
  - rewrite (loop_body_success _ _ _ _ _ data) by done.
    match goal with |- context [for_each cs _ ?st] => set (s1 := st) end.
    assert (Hk1 : forall l k, In k (od_keys (heap s1 l)) ->
      In k (od_keys (heap s l)) \/ k = unicode_name_of cls).
    { intros l k. eapply iteration_keys.
      eapply (iteration_success _ _ _ _ _ data); try done;
        by apply od_contains_not_In. }
    destruct (IH s1 Hnd (Hrest s1 Hk1)
                (fun c e0 Hin => Hexc c e0 (or_intror Hin)))
      as (s' & Hrun & Hlc & Hle).
    exists s'. split; [done|]. rewrite Hlc, Hle. simpl.
    rewrite upd_eq, upd_ne by done. by rewrite <- app_assoc.
  - assert (is_Exception e = true) as Hex by (eapply Hexc; [by left | done]).
    rewrite (loop_body_failure _ _ _ _ _ e) by done.
    match goal with |- context [for_each cs _ ?st] => set (s1 := st) end.
    assert (Hk1 : forall l k, In k (od_keys (heap s1 l)) ->
      In k (od_keys (heap s l)) \/ k = unicode_name_of cls).
    { intros l k. eapply iteration_keys.
      eapply (iteration_failure _ _ _ _ _ e); try done;
        by apply od_contains_not_In. }
    destruct (IH s1 Hnd (Hrest s1 Hk1)
                (fun c e0 Hin => Hexc c e0 (or_intror Hin)))
      as (s' & Hrun & Hlc & Hle).
    exists s'. split; [done|]. rewrite Hlc, Hle. simpl.
    rewrite upd_eq, upd_ne by done. by rewrite <- app_assoc.
Qed.

Lemma translated_valid opts cs datas :
  (forall cls, In cls cs -> toClassFile cls opts = Returned (datas cls)) ->
  translated opts cs = map (fun cls => (unicode_name_of cls, PyBytes (datas cls))) cs
  /\ failed opts cs = [].
Proof.
  induction cs as [|cls cs IH]; intros Hok; [done|].
  unfold translated, failed in *. simpl.
  rewrite (Hok cls) by (by left). simpl.
  destruct IH as [-> ->]; [|done]. intros c Hc. apply Hok. by right.
Qed.

(** C1: a class whose translation raises an [Exception] is recorded in the
    error mapping, under its decoded name and with the traceback, and the
    other classes of the image are translated all the same.  For an image of
    distinctly named classes of which one, at any position, is corrupt and the
    other N translate, [translate] returns normally with exactly the N valid
    classes in the success mapping, in the order of the image, and exactly the
    corrupt one in the error mapping. *)
Theorem translate_isolates_failure data opts pre bad post datas e s :
  DexFile data = Returned (pre ++ bad :: post) ->
  List.NoDup (map unicode_name_of (pre ++ bad :: post)) ->
  (forall cls, In cls (pre ++ post) -> toClassFile cls opts = Returned (datas cls)) ->
  toClassFile bad opts = Raised e ->
  is_Exception e = true ->
  exists lc le s',
    translate data opts None None s = (Returned (lc, le), s')
    /\ heap s' lc
       = map (fun cls => (unicode_name_of cls, PyBytes (datas cls))) (pre ++ post)
    /\ heap s' le = [(unicode_name_of bad, PyStr (format_exc e))]
    /\ length (heap s' lc) = length pre + length post
    /\ length (heap s' le) = 1.
Proof.
  intros Hdex Hnd Hok Hbad Hex.
  rewrite (translate_loop _ _ _ _ _ _ Hdex).
  destruct (entry data None None s) as [[lc le] s2] eqn:Hentry.
  destruct (entry_spec _ _ _ _ _ _ _ Hentry) as (_ & _ & _ & [_ Hc] & [_ He] & Hne).
  destruct (loop_distinct opts lc le (pre ++ bad :: post)) with (s := s2)
    as (s' & Hrun & Hlc & Hle).
  - apply Hne; simpl; auto.
  - done.
  - intros cls _. rewrite Hc, He. simpl. tauto.
  - intros cls e' Hin Hcls. apply in_app_iff in Hin as [Hin|[<-|Hin]].
    + rewrite (Hok cls) in Hcls; [done | apply in_app_iff; by left].
    + congruence.
    + rewrite (Hok cls) in Hcls; [done | apply in_app_iff; by right].
  - exists lc, le, s'. rewrite Hrun. split; [done|].
    assert (translated opts (pre ++ bad :: post)
            = map (fun cls => (unicode_name_of cls, PyBytes (datas cls))) (pre ++ post)
            /\ failed opts (pre ++ bad :: post)
              = [(unicode_name_of bad, PyStr (format_exc e))]) as [Ht Hf].
    { destruct (translated_valid opts pre datas) as [Hp1 Hp2].
      { intros. apply Hok, in_app_iff. by left. }
      destruct (translated_valid opts post datas) as [Hq1 Hq2].
      { intros. apply Hok, in_app_iff. by right. }
      unfold translated, failed in *.
      rewrite !flat_map_app. simpl. rewrite Hbad, Hp1, Hp2, Hq1, Hq2. simpl.
      by rewrite map_app. }
    rewrite Hlc, Hle, Hc, He, Ht, Hf. simpl.
    rewrite length_map, length_app. done.
Qed.

(** ** The duplicate-name policy *)

Lemma run_app_returned {A} (step : A -> state -> outcome unit -> state -> Prop)
    l1 l2 s s' :
  run step (l1 ++ l2) s (Returned tt) s' ->
  exists s1, run step l1 s (Returned tt) s1 /\ run step l2 s1 (Returned tt) s'.
Proof.
  revert s. induction l1 as [|x l1 IH]; intros s Hrun; simpl in *.
  - exists s. split; [constructor | done].
  - inversion Hrun as [|? ? ? s0 ? ? Hx Hrest|]; subst.
    destruct (IH _ Hrest) as (s1 & H1 & H2).
    exists s1. split; [by eapply run_next | done].
Qed.

(** C4: a class whose decoded name is already recorded is dropped with a
    warning, and the entry recorded first stays.  First part: in an iteration
    that finds the name among the keys of either mapping, the store is left
    exactly as it was and the only output is the warning.  Second part
    (first wins): when a call of [translate] that returns meets a name for
    the first time, at a class [cls] of the image whose name is in no mapping
    given and is borne by no earlier class of the image, the entry filed for
    [cls] is the one found under that name at the end, whatever classes of
    the same name follow. *)
Theorem duplicate_class_is_dropped
    opts lc0 le0 cls0 s0 data classes errors s pre cls post lc le s' :
  (In (unicode_name_of cls0) (od_keys (heap s0 lc0))
     \/ In (unicode_name_of cls0) (od_keys (heap s0 le0)) ->
   loop_body opts lc0 le0 cls0 s0 =
     (Returned tt,
      mkState (heap s0) (next s0)
        (trace s0 ++ [CallDecode (cls_name cls0);
                      Print [PyStr "Warning, duplicate class name";
                             PyStr (unicode_name_of cls0)]])))
  /\ (DexFile data = Returned (pre ++ cls :: post) ->
      ~ In (unicode_name_of cls) (map unicode_name_of pre) ->
      (forall l, classes = Some l \/ errors = Some l ->
         ~ In (unicode_name_of cls) (od_keys (heap s l))) ->
      translate data opts classes errors s = (Returned (lc, le), s') ->
      match toClassFile cls opts with
      | Returned class_data =>
          od_get (unicode_name_of cls) (heap s' lc) = Some (PyBytes class_data)
      | Raised e =>
          od_get (unicode_name_of cls) (heap s' le) = Some (PyStr (format_exc e))
      end).
Proof.
  split.
  { intros Hdup. apply loop_body_duplicate.
    apply orb_true_iff. by rewrite !od_contains_In. }
  intros Hdex Hfirst Hnew Hrun. apply translate_translation in Hrun.
  inversion Hrun as [|dex lc' le' s2 s'' Hdex' Hentry Hloop|]; subst.
  rewrite Hdex in Hdex'. injection Hdex' as <-.
  apply run_app_returned in Hloop as (s3 & Hpre & Hloop).
  assert (Hfresh : forall l, l = lc \/ l = le ->
            ~ In (unicode_name_of cls) (od_keys (heap s3 l))).
  { intros l Hl Hk.
    destruct (run_keys _ _ _ _ _ _ _ _ _ Hpre Hk) as [Hk2|(c & Hc & Heq)].
    - destruct (entry_spec _ _ _ _ _ _ _ Hentry) as (_ & _ & _ & Hc & He & _).
      destruct Hl as [-> | ->].
      + destruct classes as [c|]; [|destruct Hc as [_ Hc]; by rewrite Hc in Hk2].
        subst. eapply (Hnew c); [by left | by eapply entry_keys].
      + destruct errors as [e|]; [|destruct He as [_ He]; by rewrite He in Hk2].
        subst. eapply (Hnew e); [by right | by eapply entry_keys].
    - apply Hfirst. rewrite Heq. by apply in_map. }
  inversion Hloop as [|? ? ? s4 ? ? Hit Hpost|]; subst.
  pose proof (run_extends _ _ _ _ _ _ _ Hpost) as Hext.
  inversion Hit as [Hdup|class_data h' _ Hne Hd Hh|e h' Hc _ Hd Hex Hh|]; subst.
  - destruct Hdup as [Hk|Hk]; exfalso;
      [eapply (Hfresh lc) | eapply (Hfresh le)]; eauto.
  - rewrite Hd. eapply extends_get; [done|]. simpl. rewrite upd_eq.
    apply od_get_fresh, od_contains_not_In, Hfresh. by left.
  - rewrite Hd. eapply extends_get; [done|]. simpl. rewrite upd_eq.
    apply od_get_fresh, od_contains_not_In, Hfresh. by right.
Qed.

(** C9: the duplicate test looks at both mappings.  First part: an
    iteration that finds the name among the keys of the error mapping is
    skipped with the warning, the store untouched and [toClassFile] not
    called.  Second part: during a whole call of [translate] on an error
    mapping that already holds a name, [toClassFile] is called on no class
    of that name, and the entry under the name stays as it was; so a class
    that failed in an earlier image is not retried. *)
Theorem failed_class_is_not_retried
    opts lc0 le0 cls0 s0 data classes le name s r s' :
  (In (unicode_name_of cls0) (od_keys (heap s0 le0)) ->
   loop_body opts lc0 le0 cls0 s0 =
     (Returned tt,
      mkState (heap s0) (next s0)
        (trace s0 ++ [CallDecode (cls_name cls0);
                      Print [PyStr "Warning, duplicate class name";
                             PyStr (unicode_name_of cls0)]])))
  /\ (le < next s ->
      In name (od_keys (heap s le)) ->
      translate data opts classes (Some le) s = (r, s') ->
      (forall cls o, In (cls, o) (toClassFile_calls (new_events s s')) ->
         unicode_name_of cls <> name)
      /\ In name (od_keys (heap s' le))
      /\ od_get name (heap s' le) = od_get name (heap s le)).
Proof.
  split.
  { intros Hdup. apply loop_body_duplicate.
    apply orb_true_iff. rewrite !od_contains_In. by right. }
  intros Hle Hname Hrun.
  apply translate_translation in Hrun.
  destruct (translation_extends _ _ _ _ _ _ _ Hrun) as (_ & Hpre & _).
  split; [|split].
  - assert (Hloop : forall dex lc le' s2 r0,
      entry data classes (Some le) s = (lc, le', s2) ->
      run (iteration opts lc le') dex s2 r0 s' ->
      forall cls o, In (cls, o) (toClassFile_calls (new_events s s')) ->
        unicode_name_of cls <> name).
    { intros dex lc le' s2 r0 Hentry Hloop cls o Hin.
      destruct (entry_spec _ _ _ _ _ _ _ Hentry) as (Ht & _ & Hh & _ & -> & _).
      destruct (run_trace _ _ _ _ _ _ _ Hloop) as (evs & Ht' & _ & _ & _ & _ & Hcalls).
      rewrite Ht, <- app_assoc in Ht'. rewrite (new_events_app _ _ _ Ht') in Hin.
      apply (Hcalls cls o) in Hin as (_ & _ & _ & Hnot).
      intros Heq. apply Hnot. rewrite Heq, Hh by done. done. }
    destruct Hrun; [|by eapply Hloop..].
    intros cls o Hin. by rewrite (new_events_app _ (parsed data s) [CallDexFile data]) in Hin.
  - destruct (Hpre le Hle) as [d ->]. rewrite od_keys_app, in_app_iff. by left.
  - destruct (Hpre le Hle) as [d ->].
    apply in_map_iff in Hname as ([k v] & <- & Hin). simpl.
    clear -Hin. induction (heap s le) as [|[k' v'] h IH]; [done|]. simpl.
    destruct (String.eqb k k') eqn:Hk; [done|].
    destruct Hin as [[= -> ->]|Hin]; [by rewrite String.eqb_refl in Hk | by apply IH].
Qed.

(** ** Computations whose events all satisfy a property *)

Lemma emits_silent Q {A} (m : M A) :
  (forall s, trace (snd (m s)) = trace s) -> emits Q m.
Proof.
  intros Hm s r s' Hrun. exists []. rewrite app_nil_r.
  split; [|constructor]. specialize (Hm s). by rewrite Hrun in Hm.
Qed.

Lemma emits_ret Q {A} (a : A) : emits Q (ret a).
Proof. by apply emits_silent. Qed.

Lemma emits_lift Q {A} (o : outcome A) : emits Q (lift o).
Proof. by apply emits_silent. Qed.

Lemma emits_emit (Q : event -> Prop) ev : Q ev -> emits Q (emit ev).
Proof.
  intros Hq s r s' [= <- <-]. exists [ev]. split; [done|]. by repeat constructor.
Qed.

Lemma emits_bind Q {A B} (m : M A) (k : A -> M B) :
  emits Q m -> (forall a, emits Q (k a)) -> emits Q (bind m k).
Proof.
  intros Hm Hk s r s' Hrun. unfold bind in Hrun.
  destruct (m s) as [[a|e] s1] eqn:Hms.
  - destruct (Hm _ _ _ Hms) as (ev1 & Ht1 & Hq1).
    destruct (Hk a _ _ _ Hrun) as (ev2 & Ht2 & Hq2).
    exists (ev1 ++ ev2). rewrite Ht2, Ht1, <- app_assoc.
    split; [done|]. apply Forall_app; by split.
  - injection Hrun as <- <-. by apply (Hm _ _ _ Hms).
Qed.

Lemma emits_try Q body handler :
  emits Q body -> (forall e, emits Q (handler e)) ->
  emits Q (try_except_Exception body handler).
Proof.
  intros Hb Hh s r s' Hrun. unfold try_except_Exception in Hrun.
  destruct (body s) as [[a|e] s1] eqn:Hbs.
  - injection Hrun as <- <-. by apply (Hb _ _ _ Hbs).
  - destruct (Hb _ _ _ Hbs) as (ev1 & Ht1 & Hq1).
    destruct (is_Exception e).
    + destruct (Hh e _ _ _ Hrun) as (ev2 & Ht2 & Hq2).
      exists (ev1 ++ ev2). rewrite Ht2, Ht1, <- app_assoc.
      split; [done|]. apply Forall_app; by split.
    + injection Hrun as <- <-. by exists ev1.
Qed.

Lemma emits_for_each Q {A} (l : list A) body :
  (forall x, In x l -> emits Q (body x)) -> emits Q (for_each l body).
Proof.
  induction l as [|x l IH]; intros Hbody; simpl.
  - apply emits_ret.
  - apply emits_bind; [apply Hbody; by left|].
    intros _. apply IH. intros y Hy. apply Hbody. by right.
Qed.

Lemma emits_if Q {A} (b : bool) (m1 m2 : M A) :
  emits Q m1 -> emits Q m2 -> emits Q (if b then m1 else m2).
Proof. by destruct b. Qed.

Lemma emits_new_OrderedDict Q : emits Q new_OrderedDict.
Proof. by apply emits_silent. Qed.

Lemma emits_contains Q d k : emits Q (contains d k).
Proof. by apply emits_silent. Qed.

Lemma emits_setitem Q d k v : emits Q (setitem d k v).
Proof. by apply emits_silent. Qed.

Lemma emits_len Q d : emits Q (len d).
Proof. by apply emits_silent. Qed.

Lemma emits_items Q d : emits Q (items d).
Proof. by apply emits_silent. Qed.

Lemma emits_print (Q : event -> Prop) args : Q (Print args) -> emits Q (print args).
Proof. apply emits_emit. Qed.

(** The events of [loop_body], [translate], [writeToJar] and [main], for a
    property [Q] that holds of the events each of them may emit. *)
Lemma emits_loop_body (Q : event -> Prop) opts lc le cls :
  Q (CallDecode (cls_name cls)) ->
  Q (CallToClassFile cls opts) ->
  (forall args, Q (Print args)) ->
  emits Q (loop_body opts lc le cls).
Proof.
  intros Hdec Hcall Hprint. unfold loop_body, call_decode, call_toClassFile.
  repeat first
    [ apply emits_bind; [|intros ?]
    | apply emits_if
    | apply emits_try; [|intros ?]
    | apply emits_emit
    | apply emits_print
    | apply emits_ret
    | apply emits_lift
    | apply emits_contains
    | apply emits_setitem
    | apply emits_len ]; auto.
Qed.

Lemma emits_translate (Q : event -> Prop) data opts classes errors :
  Q (CallDexFile data) ->
  (forall b, Q (CallDecode b)) ->
  (forall cls, Q (CallToClassFile cls opts)) ->
  (forall args, Q (Print args)) ->
  emits Q (translate data opts classes errors).
Proof.
  intros Hdex Hdec Hcall Hprint. unfold translate, call_DexFile.
  apply emits_bind; [apply emits_bind; [by apply emits_emit | intros; apply emits_lift]|].
  intros dex. apply emits_bind.
  { destruct classes; [apply emits_ret | apply emits_new_OrderedDict]. }
  intros lc. apply emits_bind.
  { destruct errors; [apply emits_ret | apply emits_new_OrderedDict]. }
  intros le. apply emits_bind; [|intros; apply emits_ret].
  apply emits_for_each. intros cls _. by apply emits_loop_body.
Qed.

Lemma emits_writeToJar (Q : event -> Prop) classes :
  (forall n d c, Q (WriteStr n d c)) -> emits Q (writeToJar classes).
Proof.
  intros Hw. unfold writeToJar.
  apply emits_bind; [apply emits_items|]. intros entries.
  apply emits_for_each. intros [n d] _.
  apply emits_bind; [apply emits_lift|]. intros size. by apply emits_emit.
Qed.

Lemma emits_main (Q : event -> Prop) fast outname dexs :
  (forall data, Q (CallDexFile data)) ->
  (forall b, Q (CallDecode b)) ->
  (forall cls, Q (CallToClassFile cls (select_opts fast))) ->
  (forall args, Q (Print args)) ->
  (forall n d c, Q (WriteStr n d c)) ->
  emits Q (main fast outname dexs).
Proof.
  intros Hdex Hdec Hcall Hprint Hw. unfold main.
  apply emits_bind; [apply emits_new_OrderedDict|]. intros lc.
  apply emits_bind; [apply emits_new_OrderedDict|]. intros le.
  apply emits_bind.
  { apply emits_for_each. intros data _.
    apply emits_bind; [by apply emits_translate | intros; apply emits_ret]. }
  intros _. apply emits_bind; [by apply emits_writeToJar|].
  intros _. apply emits_bind; [by apply emits_print|].
  intros _. apply emits_bind; [apply emits_items|].
  intros failed_items. apply emits_bind.
  { apply emits_for_each. intros [n v] _. by apply emits_print. }
  intros _. apply emits_bind; [apply emits_len|].
  intros n. apply emits_bind; [apply emits_len|].
  intros m. by apply emits_print.
Qed.

(** ** The configuration *)

Lemma Forall_toClassFile_calls (P : Cls * Options -> Prop) evs :
  Forall (fun ev => match ev with
                    | CallToClassFile c o => P (c, o)
                    | _ => True
                    end) evs ->
  forall x, In x (toClassFile_calls evs) -> P x.
Proof.
  induction 1 as [|ev evs Hev _ IH]; intros x Hx; [done|].
  unfold toClassFile_calls in *. simpl in Hx.
  apply in_app_iff in Hx as [Hx|Hx]; [|by apply IH].
  destruct ev; try done. by destruct Hx as [<-|[]].
Qed.

(** C5: the selector has two values.  [fast] selects [options.NONE], which
    skips the optimization pipeline, and otherwise, in particular when the
    flag is not given, [options.PRETTY] is selected, which runs it; a
    configuration is one of those two; and the configuration selected is the
    one every call of [toClassFile] made by [main] receives. *)
Theorem configuration_selector fast outname dexs s r s' :
  (forall o : Options, o = NONE \/ o = PRETTY)
  /\ select_opts true = NONE
  /\ runs_optimization_pipeline (select_opts true) = false
  /\ select_opts false = PRETTY
  /\ runs_optimization_pipeline (select_opts false) = true
  /\ select_opts fast_not_given = PRETTY
  /\ (main fast outname dexs s = (r, s') ->
      forall cls o, In (cls, o) (toClassFile_calls (new_events s s')) ->
        o = select_opts fast).
Proof.
  split; [by intros []; auto|]. repeat (split; [done|]).
  intros Hrun cls o Hin.
  destruct (emits_main
    (fun ev => match ev with
               | CallToClassFile c o => (fun x => snd x = select_opts fast) (c, o)
               | _ => True
               end) fast outname dexs) with (s := s) (r := r) (s' := s')
    as (evs & Ht & Hq); try done.
  rewrite (new_events_app _ _ _ Ht) in Hin.
  by apply (Forall_toClassFile_calls (fun x => snd x = select_opts fast) _ Hq (cls, o)).
Qed.

(** ** Who calls [decode] *)

Lemma translation_trace data opts classes errors s r s' :
  translation data opts classes errors s r s' ->
  exists evs,
    trace s' = trace s ++ CallDexFile data :: evs
    /\ dexfile_calls evs = []
    /\ written evs = []
    /\ match DexFile data with
       | Returned dex =>
           decode_calls evs `prefix_of` map cls_name dex
           /\ (forall x, r = Returned x -> decode_calls evs = map cls_name dex)
       | Raised _ => evs = []
       end.
Proof.
  assert (Hloop : forall dex lc le s2 r0,
    DexFile data = Returned dex ->
    entry data classes errors s = (lc, le, s2) ->
    run (iteration opts lc le) dex s2 r0 s' ->
    exists evs,
      trace s' = trace s ++ CallDexFile data :: evs
      /\ dexfile_calls evs = [] /\ written evs = []
      /\ decode_calls evs `prefix_of` map cls_name dex
      /\ (r0 = Returned tt -> decode_calls evs = map cls_name dex)).
  { intros dex lc le s2 r0 Hdex Hentry Hrun.
    destruct (entry_spec _ _ _ _ _ _ _ Hentry) as (Ht & _).
    destruct (run_trace _ _ _ _ _ _ _ Hrun) as (evs & Ht' & Hp & Hr & Hx & Hw & _).
    exists evs. rewrite Ht' , Ht, <- app_assoc. done. }
  destruct 1 as [e Hdex|dex lc le s2 s' Hdex Hentry Hrun|dex lc le s2 e s' Hdex Hentry Hrun].
  - exists []. by rewrite Hdex.
  - destruct (Hloop _ _ _ _ _ Hdex Hentry Hrun) as (evs & ? & ? & ? & ? & Hret).
    exists evs. rewrite Hdex. repeat split; try done. intros _ _. by apply Hret.
  - destruct (Hloop _ _ _ _ _ Hdex Hentry Hrun) as (evs & ? & ? & ? & ? & Hret).
    exists evs. rewrite Hdex. by repeat split.
Qed.

Lemma Forall_decode_calls evs :
  Forall (fun ev => match ev with CallDecode _ => False | _ => True end) evs ->
  decode_calls evs = [].
Proof.
  induction 1 as [|ev evs Hev _ IH]; [done|].
  unfold decode_calls in *. simpl. rewrite IH. by destruct ev.
Qed.

(** C7, as the code has it: the driver calls [decode] itself.  A call of
    [translate] calls it once for every class its loop reaches, on the name
    bytes of the class and in the order of the image; so when [translate]
    returns, its calls of [decode] are exactly the names of the classes of
    the image, and when the image does not parse there is none.  [writeToJar]
    does not call [decode]. *)
Theorem translate_decodes_every_class_name data opts classes errors s r s' :
  translate data opts classes errors s = (r, s') ->
  match DexFile data with
  | Returned dex =>
      decode_calls (new_events s s') `prefix_of` map cls_name dex
      /\ (forall x, r = Returned x ->
            decode_calls (new_events s s') = map cls_name dex)
  | Raised _ => decode_calls (new_events s s') = []
  end
  /\ forall l r1 s1, writeToJar l s' = (r1, s1) ->
       decode_calls (new_events s' s1) = [].
Proof.
  intros Hrun. apply translate_translation in Hrun. split.
  - destruct (translation_trace _ _ _ _ _ _ _ Hrun) as (evs & Ht & _ & _ & Hd).
    rewrite (new_events_app _ _ _ Ht).
    change (decode_calls (CallDexFile data :: evs)) with (decode_calls evs).
    destruct (DexFile data); [done | by subst].
  - intros l r1 s1 Hw.
    destruct (emits_writeToJar
      (fun ev => match ev with CallDecode _ => False | _ => True end) l)
      with (s := s') (r := r1) (s' := s1) as (evs & Ht & Hq); try done.
    rewrite (new_events_app _ _ _ Ht). by apply Forall_decode_calls.
Qed.

(** ** An image that does not parse *)

Lemma images_stop opts lc le pre bad post e :
  DexFile bad = Raised e ->
  forall s r s',
  for_each (pre ++ bad :: post)
    (fun data => translate data opts (Some lc) (Some le) ;;; ret tt) s = (r, s') ->
  (exists e', r = Raised e')
  /\ exists evs,
       trace s' = trace s ++ evs
       /\ written evs = []
       /\ dexfile_calls evs `prefix_of` (pre ++ [bad]).
Proof.
  intros Hbad. induction pre as [|d pre IH]; intros s r s' Hrun; simpl in Hrun.
  - unfold bind in Hrun at 1. unfold bind in Hrun at 1.
    rewrite (translate_raises _ _ _ _ _ e) in Hrun by done.
    injection Hrun as <- <-. split; [by eexists|].
    exists [CallDexFile bad]. by repeat split.
  - unfold bind in Hrun at 1. unfold bind in Hrun at 1.
    destruct (translate d opts (Some lc) (Some le) s) as [[x|e0] s1] eqn:Hd;
      apply translate_translation, translation_trace in Hd
        as (ev1 & Ht1 & Hx1 & Hw1 & _).
    + simpl in Hrun. destruct (IH _ _ _ Hrun) as (Hr & ev2 & Ht2 & Hw2 & Hx2).
      split; [done|]. exists (CallDexFile d :: ev1 ++ ev2).
      rewrite Ht2, Ht1, <- app_assoc. split; [done|].
      unfold written, dexfile_calls in *. simpl.
      rewrite !flat_map_app, Hw1, Hw2, Hx1. simpl. split; [done|].
      by apply prefix_cons.
    + injection Hrun as <- <-. split; [by eexists|].
      exists (CallDexFile d :: ev1). split; [done|].
      unfold written, dexfile_calls in *. simpl. rewrite Hw1, Hx1.
      split; [done|]. apply prefix_cons, prefix_nil.
Qed.

(** C3, as the code has it: a failure of the parser is not confined to its
    image.  The exception leaves [translate] before any mapping is touched,
    and [main] does not catch it: when one of the images does not parse,
    [main] ends with an exception, at that image at the latest; no image
    after it is parsed, and [writeToJar] is not reached, so that nothing is
    written. *)
Theorem unparsable_image_stops_main
    fast outname pre bad post e opts classes errors s0 s :
  DexFile bad = Raised e ->
  translate bad opts classes errors s0
    = (Raised e, mkState (heap s0) (next s0) (trace s0 ++ [CallDexFile bad]))
  /\ exists e' s',
       main fast outname (pre ++ bad :: post) s = (Raised e', s')
       /\ written (new_events s s') = []
       /\ dexfile_calls (new_events s s') `prefix_of` (pre ++ [bad]).
Proof.
  intros Hbad. split; [by apply translate_raises|].
  unfold main. unfold bind at 1. simpl. unfold bind at 1. simpl.
  unfold bind at 1.
  match goal with |- context [for_each _ ?body ?st] =>
    destruct (for_each (pre ++ bad :: post) body st) as [r1 s1] eqn:Hloop end.
  destruct (images_stop _ _ _ _ _ _ _ Hbad _ _ _ Hloop)
    as ([e' ->] & evs & Ht & Hw & Hx).
  exists e', s1. split; [done|]. simpl in Ht.
  by rewrite (new_events_app _ _ _ Ht).
Qed.

(** ** Determinism and the order of the output *)

(** The outcome of an iteration, what it adds to the two mappings and what it
    emits depend on the contents of the two mappings only. *)
Lemma iteration_deterministic opts lc1 le1 lc2 le2 cls s1 s2 r1 r2 s1' s2' :
  lc1 <> le1 -> lc2 <> le2 ->
  heap s1 lc1 = heap s2 lc2 -> heap s1 le1 = heap s2 le2 ->
  iteration opts lc1 le1 cls s1 r1 s1' ->
  iteration opts lc2 le2 cls s2 r2 s2' ->
  r1 = r2
  /\ heap s1' lc1 = heap s2' lc2
  /\ heap s1' le1 = heap s2' le2
  /\ exists evs, trace s1' = trace s1 ++ evs /\ trace s2' = trace s2 ++ evs.
Proof.
  intros Hn1 Hn2 Hc He H1 H2.
  destruct H1 as [Hd1|d1 h1 Hc1 He1 Hr1 ->|e1 h1 Hc1 He1 Hr1 Hx1 ->|e1 Hc1 He1 Hr1 Hx1];
  destruct H2 as [Hd2|d2 h2 Hc2 He2 Hr2 ->|e2 h2 Hc2 He2 Hr2 Hx2 ->|e2 Hc2 He2 Hr2 Hx2];
    rewrite ?Hc, ?He in *; try tauto;
    try (rewrite Hr1 in Hr2; simplify_eq); try congruence; simpl;
    repeat (rewrite upd_eq || rewrite upd_ne by done);
    rewrite ?Hc, ?He; eauto 10.
Qed.

Lemma run_deterministic opts lc1 le1 lc2 le2 cs :
  lc1 <> le1 -> lc2 <> le2 ->
  forall s1 s2 r1 r2 s1' s2',
  heap s1 lc1 = heap s2 lc2 -> heap s1 le1 = heap s2 le2 ->
  run (iteration opts lc1 le1) cs s1 r1 s1' ->
  run (iteration opts lc2 le2) cs s2 r2 s2' ->
  r1 = r2
  /\ heap s1' lc1 = heap s2' lc2
  /\ heap s1' le1 = heap s2' le2
  /\ exists evs, trace s1' = trace s1 ++ evs /\ trace s2' = trace s2 ++ evs.
Proof.
  intros Hn1 Hn2. induction cs as [|cls cs IH]; intros s1 s2 r1 r2 s1' s2' Hc He H1 H2.
  { inversion H1; inversion H2; subst. repeat split; try done.
    exists []. by rewrite !app_nil_r. }
  inversion H1 as [|? ? ? t1 ? ? Hit1 Hrest1|? ? ? x1 ? Hit1]; subst;
  inversion H2 as [|? ? ? t2 ? ? Hit2 Hrest2|? ? ? x2 ? Hit2]; subst;
    destruct (iteration_deterministic _ _ _ _ _ _ _ _ _ _ _ _ Hn1 Hn2 Hc He Hit1 Hit2)
      as (Hr & Hc' & He' & evs & Ht1 & Ht2); try done.
  - destruct (IH _ _ _ _ _ _ Hc' He' Hrest1 Hrest2)
      as (? & ? & ? & evs' & Ht1' & Ht2').
    repeat split; try done. exists (evs ++ evs').
    by rewrite Ht1', Ht2', Ht1, Ht2, <- !app_assoc.
  - eauto 10.
Qed.

(** With two distinct mappings, the keys an iteration adds follow the order
    of the classes, and the values are class files and tracebacks. *)
Lemma run_order opts lc le cs s r s' :
  lc <> le ->
  run (iteration opts lc le) cs s r s' ->
  exists dc de,
    heap s' lc = heap s lc ++ dc
    /\ heap s' le = heap s le ++ de
    /\ od_keys dc `sublist_of` map unicode_name_of cs
    /\ od_keys de `sublist_of` map unicode_name_of cs
    /\ Forall filed (map snd dc)
    /\ Forall filed (map snd de).
Proof.
  intros Hne. induction 1 as [s|cls cs s s1 r s2 Hit _ IH|cls cs s e s1 Hit].
  - exists [], []. rewrite !app_nil_r. by repeat split.
  - destruct IH as (dc & de & Hc & He & Hkc & Hke & Hvc & Hve).
    destruct Hit as [ |d h' _ _ _ ->|e h' _ _ _ _ ->| ]; simpl in *.
    + exists dc, de. repeat split; try done; by apply sublist_cons.
    + rewrite upd_eq in Hc. rewrite upd_ne in He by done.
      exists ((unicode_name_of cls, PyBytes d) :: dc), de.
      rewrite Hc, He, <- app_assoc. simpl.
      repeat split; try done; [by apply sublist_skip | by apply sublist_cons
                              | by constructor].
    + rewrite upd_eq in He. rewrite upd_ne in Hc by done.
      exists dc, ((unicode_name_of cls, PyStr (format_exc e)) :: de).
      rewrite Hc, He, <- app_assoc. simpl.
      repeat split; try done; [by apply sublist_cons | by apply sublist_skip
                              | by constructor].
    + exists dc, de. repeat split; try done; by apply sublist_cons.
  - inversion Hit; subst; simpl.
    exists [], []. rewrite !app_nil_r. repeat split; try done; apply sublist_nil_l.
Qed.

(** [writeToJar] writes the items of the mapping, in order, and what it
    writes depends on the contents of the mapping only. *)
Lemma writeToJar_filed l s :
  Forall filed (map snd (heap s l)) ->
  writeToJar l s =
    (Returned tt,
     mkState (heap s) (next s)
       (trace s ++ map (fun item => let '(n, d, c) := jar_entry item in WriteStr n d c)
                       (heap s l))).
Proof.
  unfold writeToJar, items, bind at 1. generalize (heap s l) as entries.
  intros entries. revert s. induction entries as [|[n d] entries IH]; intros s Hf.
  - simpl. unfold ret. destruct s. simpl. by rewrite app_nil_r.
  - simpl in Hf. apply Forall_cons in Hf as [Hd Hf].
    rewrite for_each_cons. unfold bind, lift, emit, jar_entry. simpl.
    destruct d as [b|str|z]; [| |done]; simpl; rewrite IH by done; simpl;
      by rewrite <- app_assoc.
Qed.

Lemma translation_parsed data opts classes errors s r s' dex :
  translation data opts classes errors s r s' ->
  DexFile data = Returned dex ->
  exists lc le s2 r0,
    entry data classes errors s = (lc, le, s2)
    /\ run (iteration opts lc le) dex s2 r0 s'
    /\ r = match r0 with
           | Returned _ => Returned (lc, le)
           | Raised e => Raised e
           end.
Proof.
  destruct 1 as [e Hdex|dex' lc le s2 s' Hdex Hentry Hrun
                |dex' lc le s2 e s' Hdex Hentry Hrun];
    intros Hdex'; rewrite Hdex in Hdex'; simplify_eq.
  - by exists lc, le, s2, (Returned tt).
  - by exists lc, le, s2, (Raised e).
Qed.

Lemma translation_not_parsed data opts classes errors s r s' e :
  translation data opts classes errors s r s' ->
  DexFile data = Raised e ->
  r = Raised e /\ s' = parsed data s.
Proof.
  destruct 1 as [e' Hdex| |]; intros Hdex'; try congruence.
  rewrite Hdex in Hdex'. by simplify_eq.
Qed.

Lemma new_events_mkState s h n evs :
  new_events s (mkState h n (trace s ++ evs)) = evs.
Proof. by apply new_events_app. Qed.

Lemma written_writes (items : odict) :
  map fst (written (map (fun item => let '(n, d, c) := jar_entry item in
                                     WriteStr n d c) items)) = items.
Proof.
  induction items as [|[n d] items IH]; [done|].
  unfold written, jar_entry in *. simpl.
  destruct (py_len d); simpl; by rewrite IH.
Qed.

(** C6: same image, same configuration, same result.  Two runs of
    [translate] on fresh mappings, started in any two states of the store,
    end the same way and emit the same events; when they return, the two
    success mappings hold the same entries in the same order and so do the
    two error mappings, the keys of each follow the order in which the image
    declares its classes, and [writeToJar] then writes, in both runs, the
    same entries: the items of the success mapping, in that order. *)
Theorem translate_deterministic data opts s1 s2 r1 s1' r2 s2' :
  translate data opts None None s1 = (r1, s1') ->
  translate data opts None None s2 = (r2, s2') ->
  new_events s1 s1' = new_events s2 s2'
  /\ match r1, r2 with
     | Returned (c1, e1), Returned (c2, e2) =>
         heap s1' c1 = heap s2' c2
         /\ heap s1' e1 = heap s2' e2
         /\ (exists dex,
               DexFile data = Returned dex
               /\ od_keys (heap s1' c1) `sublist_of` map unicode_name_of dex
               /\ od_keys (heap s1' e1) `sublist_of` map unicode_name_of dex)
         /\ exists t1 t2,
              writeToJar c1 s1' = (Returned tt, t1)
              /\ writeToJar c2 s2' = (Returned tt, t2)
              /\ new_events s1' t1 = new_events s2' t2
              /\ map fst (written (new_events s1' t1)) = heap s1' c1
     | Raised x1, Raised x2 => x1 = x2
     | _, _ => False
     end.
Proof.
  intros H1 H2. apply translate_translation in H1, H2.
  destruct (DexFile data) as [dex|e] eqn:Hdex.
  2: { destruct (translation_not_parsed _ _ _ _ _ _ _ _ H1 Hdex) as [-> ->].
       destruct (translation_not_parsed _ _ _ _ _ _ _ _ H2 Hdex) as [-> ->].
       split; [|done]. unfold parsed.
       by rewrite !(new_events_app _ _ [CallDexFile data]). }
  destruct (translation_parsed _ _ _ _ _ _ _ _ H1 Hdex)
    as (lc1 & le1 & u1 & q1 & Hentry1 & Hrun1 & ->).
  destruct (translation_parsed _ _ _ _ _ _ _ _ H2 Hdex)
    as (lc2 & le2 & u2 & q2 & Hentry2 & Hrun2 & ->).
  destruct (entry_spec _ _ _ _ _ _ _ Hentry1) as (Ht1 & _ & _ & [_ Hc1] & [_ He1] & Hne1).
  destruct (entry_spec _ _ _ _ _ _ _ Hentry2) as (Ht2 & _ & _ & [_ Hc2] & [_ He2] & Hne2).
  assert (lc1 <> le1) as Hn1 by (apply Hne1; simpl; auto).
  assert (lc2 <> le2) as Hn2 by (apply Hne2; simpl; auto).
  destruct (run_deterministic opts lc1 le1 lc2 le2 dex Hn1 Hn2 u1 u2 q1 q2 s1' s2')
    as (-> & Hc & He & evs & Hev1 & Hev2); try done; try congruence.
  rewrite Ht1, <- app_assoc in Hev1. rewrite Ht2, <- app_assoc in Hev2.
  split; [by rewrite (new_events_app _ _ _ Hev1), (new_events_app _ _ _ Hev2)|].
  destruct q2 as [[]|x]; [|done].
  destruct (run_order _ _ _ _ _ _ _ Hn1 Hrun1)
    as (dc & de & Hdc & Hde & Hkc & Hke & Hvc & _).
  rewrite Hc1 in Hdc. rewrite He1 in Hde. simpl in Hdc, Hde.
  split; [done|]. split; [done|]. split.
  { exists dex. by rewrite Hdc, Hde. }
  eexists _, _. split; [apply writeToJar_filed; by rewrite Hdc|].
  split; [apply writeToJar_filed; by rewrite <- Hc, Hdc|].
  rewrite !new_events_mkState, <- Hc.
  split; [done | apply written_writes].
Qed.

End Properties.

(** * The driver at work on concrete inputs *)

Section Runs.
#[local] Existing Instance Toy.collaborators.

Import Toy.

Example run_translate :
  let out := translate [A; X; B] PRETTY None None init_state in
  fst out = Returned (0, 1)
  /\ heap (snd out) 0 = [("A.class", PyBytes [A]); ("B.class", PyBytes [B])]
  /\ heap (snd out) 1 = [("X.class", PyStr "IndexError: corrupt class")].
Proof. by repeat split. Qed.

Example run_main :
  let out := main true "out.jar" [[A; X]; [B; A]] init_state in
  fst out = Returned tt
  /\ trace (snd out) =
      [CallDexFile [A; X];
       CallDecode [A]; CallToClassFile A NONE;
       CallDecode [X]; CallToClassFile X NONE;
       CallDexFile [B; A];
       CallDecode [B]; CallToClassFile B NONE;
       CallDecode [A];
       Print [PyStr "Warning, duplicate class name"; PyStr "A.class"];
       WriteStr "A.class" (PyBytes [A; A]) ZIP_STORED;
       WriteStr "B.class" (PyBytes [B; B]) ZIP_STORED;
       Print [PyStr "Output written to"; PyStr "out.jar"];
       Print [PyStr "X.class"; PyStr "IndexError: corrupt class"];
       Print [PyStr "2 classes translated successfully, 1 classes had errors"]].
Proof. by split. Qed.

Example run_interrupted :
  let out := translate [A; I; B] PRETTY None None init_state in
  fst out = Raised Interrupt
  /\ heap (snd out) 0 = [("A.class", PyBytes [A])]
  /\ heap (snd out) 1 = [].
Proof. by repeat split. Qed.

(** C1 at work: the corrupt class [X] between [A] and [B]. *)
Lemma translate_isolates_failure_witness :
  exists lc le s',
    translate [A; X; B] PRETTY None None init_state = (Returned (lc, le), s')
    /\ heap s' lc
       = map (fun cls : Byte.byte =>
                (unicode_name_of (X := collaborators) cls, PyBytes [cls]))
           ([A] ++ [B])
    /\ heap s' le
       = [(unicode_name_of (X := collaborators) X, PyStr (format_exc Corrupt))]
    /\ length (heap s' lc) = length [A] + length [B]
    /\ length (heap s' le) = 1.
Proof.
  apply (translate_isolates_failure (X := collaborators)
           [A; X; B] PRETTY [A] X [B] (fun cls => [cls]) Corrupt init_state).
  - reflexivity.
  - repeat constructor; simpl; intuition discriminate.
  - intros cls [<-|[<-|[]]]; reflexivity.
  - reflexivity.
  - reflexivity.
Defined.

(** C2 at work: an iteration and a call on the two mappings an earlier call
    has left. *)
Lemma translate_keeps_mappings_disjoint_witness :
  od_disjoint (heap (snd (loop_body PRETTY 0 1 B after_AX)) 0)
              (heap (snd (loop_body PRETTY 0 1 B after_AX)) 1)
  /\ od_disjoint
       (heap (snd (translate [B; X; A] PRETTY (Some 0) (Some 1) after_AX)) 0)
       (heap (snd (translate [B; X; A] PRETTY (Some 0) (Some 1) after_AX)) 1).
Proof.
  assert (Hdis : od_disjoint (heap after_AX 0) (heap after_AX 1)).
  { intros k Hc He. cbv in Hc, He.
    destruct Hc as [<-|[]]. destruct He as [Hk|[]]. discriminate Hk. }
  pose proof (translate_keeps_mappings_disjoint (X := collaborators)
                PRETTY 0 1 B after_AX
                (fst (loop_body PRETTY 0 1 B after_AX))
                (snd (loop_body PRETTY 0 1 B after_AX))
                [B; X; A] (Some 0) (Some 1) after_AX
                (fst (translate [B; X; A] PRETTY (Some 0) (Some 1) after_AX))
                (snd (translate [B; X; A] PRETTY (Some 0) (Some 1) after_AX)))
    as [Hiter Hcall].
  split.
  - apply Hiter; [discriminate | exact Hdis | reflexivity].
  - apply Hcall; try reflexivity.
    + simpl. lia.
    + simpl. lia.
    + intros c e [= <-] [= <-]. split; [discriminate | exact Hdis].
Defined.

(** C3 as stated fails: of the two images [[]] and [[A]] the first does not
    parse; the second parses and its class translates, and yet [main] ends
    with the exception of the first, the class of the second is in neither
    mapping and nothing has been written. *)
Lemma later_image_is_not_translated :
  DexFile (Collaborators := collaborators) [A] = Returned [A]
  /\ toClassFile (Collaborators := collaborators) A PRETTY = Returned [A]
  /\ fst (main false "out.jar" [[]; [A]] init_state) = Raised BadHeader
  /\ ~ In (unicode_name_of (X := collaborators) A)
         (od_keys (heap (snd (main false "out.jar" [[]; [A]] init_state)) 0))
  /\ ~ In (unicode_name_of (X := collaborators) A)
         (od_keys (heap (snd (main false "out.jar" [[]; [A]] init_state)) 1))
  /\ dexfile_calls (trace (snd (main false "out.jar" [[]; [A]] init_state)))
     = [[]]
  /\ written (trace (snd (main false "out.jar" [[]; [A]] init_state))) = [].
Proof.
  simpl. repeat split; try reflexivity; intros [].
Qed.

(** C3, as amended, at work. *)
Lemma unparsable_image_stops_main_witness :
  translate [] PRETTY None None init_state
    = (Raised BadHeader,
       mkState (heap init_state) (next init_state)
         (trace init_state ++ [CallDexFile []]))
  /\ exists e' s',
       main false "out.jar" ([[A]] ++ [] :: [[B]]) init_state = (Raised e', s')
       /\ written (new_events init_state s') = []
       /\ dexfile_calls (new_events init_state s') `prefix_of` ([[A]] ++ [[]]).
Proof.
  apply (unparsable_image_stops_main (X := collaborators)
           false "out.jar" [[A]] [] [[B]] BadHeader
           PRETTY None None init_state init_state).
  reflexivity.
Defined.

(** C4 at work: [A] is already recorded when it is met again, and in the
    image [B A A] the second [A] is dropped. *)
Lemma duplicate_class_is_dropped_witness :
  loop_body PRETTY 0 1 A after_AX =
    (Returned tt,
     mkState (heap after_AX) (next after_AX)
       (trace after_AX
          ++ [CallDecode [A];
              Print [PyStr "Warning, duplicate class name";
                     PyStr (unicode_name_of (X := collaborators) A)]]))
  /\ od_get (unicode_name_of (X := collaborators) A)
       (heap (snd (translate [B; A; A] PRETTY None None init_state)) 0)
     = Some (PyBytes [A]).
Proof.
  pose proof (duplicate_class_is_dropped (X := collaborators)
                PRETTY 0 1 A after_AX
                [B; A; A] None None init_state [B] A [A] 0 1
                (snd (translate [B; A; A] PRETTY None None init_state)))
    as [Hiter Hcall].
  split.
  - apply Hiter. left. simpl. auto.
  - apply Hcall.
    + reflexivity.
    + simpl. intuition discriminate.
    + intros l [Hl|Hl]; discriminate Hl.
    + reflexivity.
Defined.

(** C5 at work: without [--fast], every class is translated with
    [options.PRETTY]. *)
Lemma configuration_selector_witness :
  Forall (fun call : Byte.byte * Options => snd call = PRETTY)
    (toClassFile_calls
       (new_events init_state
          (snd (main fast_not_given "out.jar" [[A; X]; [B]] init_state)))).
Proof.
  apply Forall_forall. intros [cls o] Hin.
  apply (proj2 (proj2 (proj2 (proj2 (proj2 (proj2
           (configuration_selector (X := collaborators)
              fast_not_given "out.jar" [[A; X]; [B]] init_state
              (fst (main fast_not_given "out.jar" [[A; X]; [B]] init_state))
              (snd (main fast_not_given "out.jar" [[A; X]; [B]] init_state)))))))))
    with (cls := cls); [reflexivity|].
  by apply list_elem_of_In.
Defined.

(** C6 at work: the same image translated in two different stores. *)
Lemma translate_deterministic_witness :
  new_events init_state
    (snd (translate [A; X; B; A] PRETTY None None init_state))
  = new_events after_AX
      (snd (translate [A; X; B; A] PRETTY None None after_AX))
  /\ heap (snd (translate [A; X; B; A] PRETTY None None init_state)) 0
     = heap (snd (translate [A; X; B; A] PRETTY None None after_AX)) 2
  /\ heap (snd (translate [A; X; B; A] PRETTY None None init_state)) 1
     = heap (snd (translate [A; X; B; A] PRETTY None None after_AX)) 3.
Proof.
  pose proof (translate_deterministic (X := collaborators)
                [A; X; B; A] PRETTY init_state after_AX
                (fst (translate [A; X; B; A] PRETTY None None init_state))
                (snd (translate [A; X; B; A] PRETTY None None init_state))
                (fst (translate [A; X; B; A] PRETTY None None after_AX))
                (snd (translate [A; X; B; A] PRETTY None None after_AX))
                eq_refl eq_refl)
    as (Hev & Hc & He & _).
  split; [exact Hev|]. split; [exact Hc | exact He].
Defined.

(** C7 as stated fails: the loop of [translate] calls [decode], here on the
    name of class [A], and a call of [translate] on the image [A B] calls it
    twice. *)
Lemma loop_calls_decode :
  In (CallDecode [A])
     (new_events init_state (snd (loop_body PRETTY 0 1 A init_state)))
  /\ decode_calls
       (new_events init_state (snd (translate [A; B] PRETTY None None init_state)))
     = [[A]; [B]].
Proof.
  split; [left; reflexivity | reflexivity].
Qed.

(** C7, as amended, at work. *)
Lemma translate_decodes_every_class_name_witness :
  decode_calls
    (new_events init_state (snd (translate [A; X; B] PRETTY None None init_state)))
  = map (cls_name (Collaborators := collaborators)) [A; X; B].
Proof.
  pose proof (translate_decodes_every_class_name (X := collaborators)
                [A; X; B] PRETTY None None init_state
                (fst (translate [A; X; B] PRETTY None None init_state))
                (snd (translate [A; X; B] PRETTY None None init_state))
                eq_refl) as [[_ Hret] _].
  by apply (Hret (0, 1)).
Defined.

(** C8 at work: the key [X.class] of the error mapping. *)
Lemma mapping_keys_are_decoded_names_witness :
  (exists dex cls,
     DexFile (Collaborators := collaborators) [A; X] = Returned dex
     /\ In cls dex
     /\ "X.class" = (decode (cls_name cls) ++ ".class")%string)
  \/ (exists l, (@None loc = Some l \/ @None loc = Some l)
               /\ In "X.class" (od_keys (heap init_state l))).
Proof.
  apply (mapping_keys_are_decoded_names (X := collaborators)
           [A; X] PRETTY None None init_state 0 1 after_AX "X.class").
  - reflexivity.
  - right. simpl. auto.
Defined.

(** C9 at work: [X] failed in an earlier image and is not tried again. *)
Lemma failed_class_is_not_retried_witness :
  loop_body PRETTY 0 1 X after_AX =
    (Returned tt,
     mkState (heap after_AX) (next after_AX)
       (trace after_AX
          ++ [CallDecode [X];
              Print [PyStr "Warning, duplicate class name";
                     PyStr (unicode_name_of (X := collaborators) X)]]))
  /\ Forall (fun call : Byte.byte * Options =>
              unicode_name_of (X := collaborators) (fst call) <> "X.class")
       (toClassFile_calls
          (new_events after_AX
             (snd (translate [B; X] PRETTY (Some 0) (Some 1) after_AX))))
  /\ In "X.class"
       (od_keys (heap (snd (translate [B; X] PRETTY (Some 0) (Some 1) after_AX)) 1))
  /\ od_get "X.class"
       (heap (snd (translate [B; X] PRETTY (Some 0) (Some 1) after_AX)) 1)
     = od_get "X.class" (heap after_AX 1).
Proof.
  pose proof (failed_class_is_not_retried (X := collaborators)
                PRETTY 0 1 X after_AX [B; X] (Some 0) 1 "X.class" after_AX
                (fst (translate [B; X] PRETTY (Some 0) (Some 1) after_AX))
                (snd (translate [B; X] PRETTY (Some 0) (Some 1) after_AX)))
    as [Hiter Hcall].
  split.
  - apply Hiter. simpl. auto.
  - destruct Hcall as (Hcalls & Hin & Hget).
    + simpl. lia.
    + simpl. auto.
    + reflexivity.
    + split; [|by split]. apply Forall_forall. intros [cls o] Hc.
      apply (Hcalls cls o). by apply list_elem_of_In.
Defined.

(** C10 at work: a call that is given the success mapping of an earlier call
    and no error mapping. *)
Lemma translate_only_appends_witness :
  heap after_AX 0
    `prefix_of` heap (snd (translate [B; A] PRETTY (Some 0) None after_AX)) 0
  /\ heap after_AX 1
     = heap (snd (translate [B; A] PRETTY (Some 0) None after_AX)) 1
  /\ fst (translate [B; A] PRETTY (Some 0) None after_AX) = Returned (0, 2).
Proof.
  pose proof (translate_only_appends (X := collaborators)
                [B; A] PRETTY (Some 0) None after_AX
                (fst (translate [B; A] PRETTY (Some 0) None after_AX))
                (snd (translate [B; A] PRETTY (Some 0) None after_AX))
                eq_refl) as (Hprefix & _ & _ & Hframe & _).
  split; [apply Hprefix; simpl; lia|].
  split; [|reflexivity].
  symmetry. apply Hframe; [simpl; lia | discriminate | discriminate].
Defined.

End Runs.

(** * Further properties of the driver *)

Section MoreProperties.
Context {X : Collaborators}.

(** ** No class is lost *)

Lemma run_filed opts lc le cs s s' :
  run (iteration opts lc le) cs s (Returned tt) s' ->
  forall cls, In cls cs ->
    In (unicode_name_of cls) (od_keys (heap s' lc))
    \/ In (unicode_name_of cls) (od_keys (heap s' le)).
Proof.
  remember (Returned tt) as r eqn:Hr.
  induction 1 as [s|c cs s s1 r s2 Hit Hrun IH|]; intros cls Hin; [done| |done].
  destruct Hin as [<-|Hin]; [|by apply IH].
  pose proof (run_extends _ _ _ _ _ _ _ Hrun) as Hext. clear IH.
  inversion Hit as [[Hk|Hk]|data h' _ _ _ Hh|e h' _ _ _ _ Hh|]; subst.
  - left. by eapply extends_keys.
  - right. by eapply extends_keys.
  - left. eapply extends_keys; [done|]. simpl.
    rewrite upd_eq, od_keys_app, in_app_iff. right. by left.
  - right. eapply extends_keys; [done|]. simpl.
    rewrite upd_eq, od_keys_app, in_app_iff. right. by left.
Qed.

Lemma translation_filed data opts classes errors s lc le s' dex cls :
  translation data opts classes errors s (Returned (lc, le)) s' ->
  DexFile data = Returned dex ->
  In cls dex ->
  In (unicode_name_of cls) (od_keys (heap s' lc))
  \/ In (unicode_name_of cls) (od_keys (heap s' le)).
Proof.
  intros Hrun Hdex Hin.
  destruct (translation_parsed _ _ _ _ _ _ _ _ Hrun Hdex)
    as (lc' & le' & s2 & r0 & Hentry & Hloop & Hr).
  destruct r0 as [[]|e]; [|done]. injection Hr as <- <-.
  by eapply run_filed.
Qed.

(** X1: When [translate] returns, every class of the image is accounted for:
    its decoded name is a key of the success mapping or of the error
    mapping. *)
Theorem every_class_is_filed data opts classes errors s lc le s' dex cls :
  translate data opts classes errors s = (Returned (lc, le), s') ->
  DexFile data = Returned dex ->
  In cls dex ->
  In (unicode_name_of cls) (od_keys (heap s' lc))
  \/ In (unicode_name_of cls) (od_keys (heap s' le)).
Proof.
  intros Hrun Hdex Hin. apply translate_translation in Hrun.
  by eapply translation_filed.
Qed.

(** ** What the entries of the mappings are *)

Lemma run_entries opts lc le cs s r s' :
  lc <> le ->
  run (iteration opts lc le) cs s r s' ->
  exists dc de,
    heap s' lc = heap s lc ++ dc
    /\ heap s' le = heap s le ++ de
    /\ Forall (fun item => exists cls class_data,
                 In cls cs /\ toClassFile cls opts = Returned class_data
                 /\ item = (unicode_name_of cls, PyBytes class_data)) dc
    /\ Forall (fun item => exists cls e,
                 In cls cs /\ toClassFile cls opts = Raised e
                 /\ is_Exception e = true
                 /\ item = (unicode_name_of cls, PyStr (format_exc e))) de.
Proof.
  intros Hne. induction 1 as [s|cls cs s s1 r s2 Hit _ IH|cls cs s e s1 Hit].
  - exists [], []. rewrite !app_nil_r. by repeat split.
  - destruct IH as (dc & de & Hc & He & Hdc & Hde).
    assert (Hdc' : Forall (fun item => exists c class_data,
                 In c (cls :: cs) /\ toClassFile c opts = Returned class_data
                 /\ item = (unicode_name_of c, PyBytes class_data)) dc).
    { eapply Forall_impl; [exact Hdc|]. intros item (c & d & ? & ? & ?).
      exists c, d. split; [by right | done]. }
    assert (Hde' : Forall (fun item => exists c e,
                 In c (cls :: cs) /\ toClassFile c opts = Raised e
                 /\ is_Exception e = true
                 /\ item = (unicode_name_of c, PyStr (format_exc e))) de).
    { eapply Forall_impl; [exact Hde|]. intros item (c & e & ? & ? & ? & ?).
      exists c, e. split; [by right | done]. }
    destruct Hit as [ |d h' _ _ Hd ->|e h' _ _ Hd Hex ->| ]; simpl in *.
    + by exists dc, de.
    + rewrite upd_eq in Hc. rewrite upd_ne in He by done.
      exists ((unicode_name_of cls, PyBytes d) :: dc), de.
      rewrite Hc, He, <- app_assoc. repeat split; try done.
      constructor; [|done]. exists cls, d. split; [by left | done].
    + rewrite upd_eq in He. rewrite upd_ne in Hc by done.
      exists dc, ((unicode_name_of cls, PyStr (format_exc e)) :: de).
      rewrite Hc, He, <- app_assoc. repeat split; try done.
      constructor; [|done]. exists cls, e. split; [by left | done].
    + by exists dc, de.
  - inversion Hit; subst; simpl.
    exists [], []. rewrite !app_nil_r. by repeat split.
Qed.

(** X2: The entries [translate] adds are genuine. With two distinct
    mappings, an item of the success mapping returned is either an item the
    mapping passed in already had, or the name of a class of the image with
    the bytes [toClassFile] returned for that class; an item of the error
    mapping is either one it already had, or the name of a class of the
    image with the traceback of the [Exception] that [toClassFile] raised
    for it. *)
Theorem entries_are_genuine data opts classes errors s lc le s' :
  allocated s classes ->
  allocated s errors ->
  (forall c e, classes = Some c -> errors = Some e -> c <> e) ->
  translate data opts classes errors s = (Returned (lc, le), s') ->
  (forall item, In item (heap s' lc) ->
     (classes = Some lc /\ In item (heap s lc))
     \/ exists dex cls class_data,
          DexFile data = Returned dex /\ In cls dex
          /\ toClassFile cls opts = Returned class_data
          /\ item = (unicode_name_of cls, PyBytes class_data))
  /\ (forall item, In item (heap s' le) ->
        (errors = Some le /\ In item (heap s le))
        \/ exists dex cls e,
             DexFile data = Returned dex /\ In cls dex
             /\ toClassFile cls opts = Raised e /\ is_Exception e = true
             /\ item = (unicode_name_of cls, PyStr (format_exc e))).
Proof.
  intros Hac Hae Hdist Hrun. apply translate_translation in Hrun.
  inversion Hrun as [|dex lc' le' s2 s'' Hdex Hentry Hloop|]; subst.
  destruct (entry_spec _ _ _ _ _ _ _ Hentry) as (_ & _ & Hh & Hc & He & Hne).
  assert (lc <> le) as Hlcle.
  { destruct classes as [c|] eqn:Ecl; destruct errors as [e|] eqn:Eer;
      try (apply Hne; simpl; auto; fail).
    subst. by apply Hdist. }
  destruct (run_entries _ _ _ _ _ _ _ Hlcle Hloop) as (dc & de & Hdc & Hde & Hgc & Hge).
  rewrite Forall_forall in Hgc, Hge. split.
  - intros item Hin. rewrite Hdc in Hin. apply in_app_iff in Hin as [Hin|Hin].
    + left. destruct classes as [c|]; [|destruct Hc as [_ Hc]; by rewrite Hc in Hin].
      subst. split; [done|]. by rewrite <- (Hh c Hac).
    + right. apply list_elem_of_In, Hgc in Hin as (cls & d & ? & ? & ?).
      by exists dex, cls, d.
  - intros item Hin. rewrite Hde in Hin. apply in_app_iff in Hin as [Hin|Hin].
    + left. destruct errors as [e|]; [|destruct He as [_ He]; by rewrite He in Hin].
      subst. split; [done|]. by rewrite <- (Hh e Hae).
    + right. apply list_elem_of_In, Hge in Hin as (cls & e & ? & ? & ? & ?).
      by exists dex, cls, e.
Qed.

(** ** Translated, or warned about *)

Lemma progress_report_silent c e :
  toClassFile_calls (progress_report c e) = []
  /\ duplicate_warnings (progress_report c e) = [].
Proof. unfold progress_report. by destruct (Z.eqb _ 0). Qed.

Lemma iteration_account opts lc le cls s r s' :
  lc <> le ->
  iteration opts lc le cls s r s' ->
  exists evs,
    trace s' = trace s ++ evs
    /\ (r = Returned tt ->
        length (toClassFile_calls evs) + length (duplicate_warnings evs) = 1
        /\ length (heap s' lc) + length (heap s' le)
           = length (heap s lc) + length (heap s le)
             + length (toClassFile_calls evs)).
Proof.
  intros Hne.
  destruct 1 as [ |d h' _ _ _ ->|e h' _ _ _ _ ->| ]; eexists;
    (split; [reflexivity|]); intros Hr; try done; simpl;
    unfold toClassFile_calls, duplicate_warnings; rewrite ?flat_map_app; simpl;
    try (match goal with |- context [progress_report ?c ?e] =>
           destruct (progress_report_silent c e) as [Hp1 Hp2];
           unfold toClassFile_calls, duplicate_warnings in Hp1, Hp2;
           rewrite Hp1, Hp2 end);
    repeat (rewrite upd_eq || rewrite upd_ne by done);
    rewrite ?length_app; simpl; lia.
Qed.

Lemma run_account opts lc le cs s s' :
  lc <> le ->
  run (iteration opts lc le) cs s (Returned tt) s' ->
  exists evs,
    trace s' = trace s ++ evs
    /\ length cs
       = length (toClassFile_calls evs) + length (duplicate_warnings evs)
    /\ length (heap s' lc) + length (heap s' le)
       = length (heap s lc) + length (heap s le)
         + length (toClassFile_calls evs).
Proof.
  intros Hne. remember (Returned tt) as r eqn:Hr.
  induction 1 as [s|cls cs s s1 r s2 Hit Hrun IH|]; [| |done].
  - exists []. rewrite app_nil_r. simpl. split; [done|]. split; [done | lia].
  - destruct (iteration_account _ _ _ _ _ _ _ Hne Hit) as (ev1 & Ht1 & Ha1).
    destruct (Ha1 eq_refl) as [Hone Hlen1].
    destruct (IH Hr) as (ev2 & Ht2 & Hcs & Hlen2).
    exists (ev1 ++ ev2). rewrite Ht2, Ht1, <- app_assoc. split; [done|].
    unfold toClassFile_calls, duplicate_warnings in *.
    rewrite !flat_map_app, !length_app. simpl. lia.
Qed.

(** X3: When [translate], on two new mappings, returns, every class of the
    image has been dealt with in exactly one of two ways: [toClassFile] was
    called on it, or a duplicate warning was printed for it; and every call
    of [toClassFile] has left exactly one entry, in one of the two mappings. *)
Theorem every_class_is_translated_or_warned_about data opts s lc le s' dex :
  translate data opts None None s = (Returned (lc, le), s') ->
  DexFile data = Returned dex ->
  length dex
    = length (toClassFile_calls (new_events s s'))
      + length (duplicate_warnings (new_events s s'))
  /\ length (heap s' lc) + length (heap s' le)
     = length (toClassFile_calls (new_events s s')).
Proof.
  intros Hrun Hdex. apply translate_translation in Hrun.
  destruct (translation_parsed _ _ _ _ _ _ _ _ Hrun Hdex)
    as (lc' & le' & s2 & r0 & Hentry & Hloop & Hr).
  destruct r0 as [[]|e]; [|done]. injection Hr as <- <-.
  destruct (entry_spec _ _ _ _ _ _ _ Hentry) as (Ht & _ & _ & [_ Hc] & [_ He] & Hne).
  assert (lc <> le) as Hlcle by (apply Hne; simpl; auto).
  destruct (run_account _ _ _ _ _ _ Hlcle Hloop) as (evs & Ht' & Hcs & Hlen).
  rewrite Ht, <- app_assoc in Ht'. rewrite (new_events_app _ _ _ Ht').
  rewrite Hc, He in Hlen. simpl in Hlen.
  change (toClassFile_calls ([CallDexFile data] ++ evs))
    with (toClassFile_calls evs).
  change (duplicate_warnings ([CallDexFile data] ++ evs))
    with (duplicate_warnings evs).
  done.
Qed.

(** ** The progress report *)

Lemma iteration_progress opts lc le cls s r s' :
  iteration opts lc le cls s r s' ->
  exists evs,
    trace s' = trace s ++ evs
    /\ forall n, In (Print [PyInt n; PyStr "classes processed"]) evs ->
         (n = od_len (heap s' lc) + od_len (heap s' le)
          /\ n mod 1000 = 0 /\ 0 < n)%Z.
Proof.
  assert (Hrep : forall c e n,
    (0 < od_len c + od_len e)%Z ->
    In (Print [PyInt n; PyStr "classes processed"]) (progress_report c e) ->
    (n = od_len c + od_len e /\ n mod 1000 = 0 /\ 0 < n)%Z).
  { intros c e n Hpos. unfold progress_report.
    destruct (Z.eqb_spec ((od_len c + od_len e) mod 1000) 0) as [Hz|]; [|done].
    intros [[= <-]|[]]. done. }
  assert (Hpos : forall (d d' : odict) x, (0 < od_len (d ++ [x]) + od_len d')%Z).
  { intros d d' x. unfold od_len. rewrite length_app. simpl. lia. }
  destruct 1 as [ |d h' _ _ _ ->|e h' _ _ _ _ ->| ]; eexists;
    (split; [reflexivity|]); intros n Hin; simpl in *.
  - by destruct Hin as [|[|[]]].
  - destruct Hin as [|[|Hin]]; [done..|]. apply Hrep; [|done].
    rewrite upd_eq. destruct (Nat.eq_dec le lc) as [->|Hne].
    + rewrite upd_eq. apply Hpos.
    + apply Hpos.
  - destruct Hin as [|[|Hin]]; [done..|]. apply Hrep; [|done].
    rewrite upd_eq. rewrite Z.add_comm. destruct (Nat.eq_dec lc le) as [->|Hne].
    + rewrite upd_eq. apply Hpos.
    + apply Hpos.
  - by destruct Hin as [|[|[]]].
Qed.

Lemma extends_len s s' l : extends s s' -> (od_len (heap s l) <= od_len (heap s' l))%Z.
Proof.
  intros [_ Hh]. unfold od_len. apply inj_le, prefix_length, Hh.
Qed.

Lemma run_progress opts lc le cs s r s' :
  run (iteration opts lc le) cs s r s' ->
  exists evs,
    trace s' = trace s ++ evs
    /\ forall n, In (Print [PyInt n; PyStr "classes processed"]) evs ->
         (n mod 1000 = 0
          /\ 0 < n <= od_len (heap s' lc) + od_len (heap s' le))%Z.
Proof.
  induction 1 as [s|cls cs s s1 r s2 Hit Hrun IH|cls cs s e s1 Hit].
  - exists []. by rewrite app_nil_r.
  - destruct (iteration_progress _ _ _ _ _ _ _ Hit) as (ev1 & Ht1 & Hp1).
    destruct IH as (ev2 & Ht2 & Hp2).
    pose proof (run_extends _ _ _ _ _ _ _ Hrun) as Hext.
    pose proof (extends_len _ _ lc Hext). pose proof (extends_len _ _ le Hext).
    exists (ev1 ++ ev2). rewrite Ht2, Ht1, <- app_assoc. split; [done|].
    intros n Hin. apply in_app_iff in Hin as [Hin|Hin]; [|by apply Hp2].
    destruct (Hp1 n Hin) as (-> & ? & ?). lia.
  - destruct (iteration_progress _ _ _ _ _ _ _ Hit) as (ev1 & Ht1 & Hp1).
    exists ev1. split; [done|]. intros n Hin.
    destruct (Hp1 n Hin) as (-> & ? & ?). lia.
Qed.

(** X4: The progress line of [translate] is printed only when the number of
    classes recorded so far, in the two mappings together, is a positive
    multiple of 1000, and that number is what it shows; so a call that
    returns with fewer than 1000 entries in its two mappings has printed
    none. *)
Theorem progress_is_reported_by_the_thousand
    data opts classes errors s lc le s' n :
  translate data opts classes errors s = (Returned (lc, le), s') ->
  (In (Print [PyInt n; PyStr "classes processed"]) (new_events s s') ->
   (n mod 1000 = 0 /\ 0 < n <= od_len (heap s' lc) + od_len (heap s' le))%Z)
  /\ ((od_len (heap s' lc) + od_len (heap s' le) < 1000)%Z ->
      ~ In (Print [PyInt n; PyStr "classes processed"]) (new_events s s')).
Proof.
  intros Hrun. apply translate_translation in Hrun.
  inversion Hrun as [|dex lc' le' s2 s'' Hdex Hentry Hloop|]; subst.
  destruct (entry_spec _ _ _ _ _ _ _ Hentry) as (Ht & _).
  destruct (run_progress _ _ _ _ _ _ _ Hloop) as (evs & Ht' & Hp).
  rewrite Ht, <- app_assoc in Ht'. rewrite (new_events_app _ _ _ Ht').
  assert (Hin : In (Print [PyInt n; PyStr "classes processed"])
                   ([CallDexFile data] ++ evs) ->
    (n mod 1000 = 0 /\ 0 < n <= od_len (heap s' lc) + od_len (heap s' le))%Z).
  { intros [|Hin]; [done | by apply Hp]. }
  split; [done|]. intros Hsmall Hn. destruct (Hin Hn) as (Hmod & Hpos & Hle).
  apply Z.mod_divide in Hmod; [|done]. destruct Hmod as [q ->]. lia.
Qed.

(** ** An exception that is not an [Exception] *)

Lemma for_each_app {A} (l1 l2 : list A) body s :
  for_each (l1 ++ l2) body s =
    match for_each l1 body s with
    | (Returned _, s1) => for_each l2 body s1
    | (Raised e, s1) => (Raised e, s1)
    end.
Proof.
  revert s. induction l1 as [|x l1 IH]; intros s; [done|].
  simpl. unfold bind. destruct (body x s) as [[[]|e] s1]; [apply IH | done].
Qed.

Lemma translated_keys opts cs k :
  In k (od_keys (translated opts cs)) \/ In k (od_keys (failed opts cs)) ->
  In k (map unicode_name_of cs).
Proof.
  unfold translated, failed. induction cs as [|cls cs IH]; simpl; [tauto|].
  rewrite !od_keys_app, !in_app_iff.
  destruct (toClassFile cls opts); simpl; tauto.
Qed.

(** X5: An exception of [toClassFile] that is not an [Exception] is not
    caught: it ends the call of [translate]. Over distinctly named classes,
    when class [bad] is the first whose translation raises such an
    exception, the call raises it; the two mappings hold what the classes
    before [bad] put there and no trace of [bad], and the classes after
    [bad] are not even looked at: [decode] has been called on the names up
    to [bad] only. *)
Theorem translate_stops_at_a_base_exception data opts pre bad post e s :
  DexFile data = Returned (pre ++ bad :: post) ->
  List.NoDup (map unicode_name_of (pre ++ [bad])) ->
  (forall cls e', In cls pre -> toClassFile cls opts = Raised e' ->
     is_Exception e' = true) ->
  toClassFile bad opts = Raised e ->
  is_Exception e = false ->
  exists s',
    translate data opts None None s = (Raised e, s')
    /\ heap s' (next s) = translated opts pre
    /\ heap s' (S (next s)) = failed opts pre
    /\ decode_calls (new_events s s') = map cls_name (pre ++ [bad]).
Proof.
  intros Hdex Hnd Hpre Hbad Hex.
  rewrite (translate_loop _ _ _ _ _ _ Hdex).
  destruct (entry data None None s) as [[lc le] s2] eqn:Hentry.
  destruct (entry_spec _ _ _ _ _ _ _ Hentry) as (Ht & _ & _ & [_ Hc] & [_ He] & Hne).
  assert (lc = next s /\ le = S (next s)) as [Hlc Hle].
  { unfold entry, mapping_of, parsed in Hentry. simpl in Hentry.
    by injection Hentry as <- <- _. }
  assert (lc <> le) as Hlcle by (apply Hne; simpl; auto).
  rewrite map_app in Hnd. apply NoDup_remove in Hnd as [Hnd Hfresh].
  rewrite app_nil_r in Hnd, Hfresh. simpl in Hnd.
  destruct (loop_distinct opts lc le pre Hlcle s2 Hnd) as (s1 & Hrun & Hlc1 & Hle1).
  { intros cls _. rewrite Hc, He. simpl. tauto. }
  { done. }
  rewrite Hc in Hlc1. rewrite He in Hle1. simpl in Hlc1, Hle1.
  pose proof (loop_run _ _ _ _ _ _ _ Hrun) as Hrel.
  destruct (run_trace _ _ _ _ _ _ _ Hrel) as (evs & Ht1 & _ & Hdec & _).
  rewrite for_each_app, Hrun, for_each_cons.
  rewrite (loop_body_abort _ _ _ _ _ e); try done.
  - eexists. split; [reflexivity|]. simpl. rewrite <- Hle, <- Hlc.
    split; [done|]. split; [done|].
    rewrite Ht1, Ht, <- !app_assoc. rewrite new_events_mkState.
    unfold decode_calls in *. rewrite !flat_map_app, Hdec by done.
    simpl. by rewrite map_app.
  - apply od_contains_not_In. rewrite Hlc1. intros Hk. apply Hfresh.
    apply (translated_keys opts). by left.
  - apply od_contains_not_In. rewrite Hle1. intros Hk. apply Hfresh.
    apply (translated_keys opts). by right.
Qed.

(** ** [writeToJar] *)

(** X6: [writeToJar] writes one archive entry per item of the mapping, in
    the order of the mapping, under the key and with the value of the item,
    and nothing else; an entry is deflated when its data is longer than
    10000 and stored as it is otherwise; and the store is left as it was.
    (The values are class files or tracebacks, as [translate] files them.) *)
Theorem writeToJar_writes_the_items classes s :
  Forall filed (map snd (heap s classes)) ->
  exists s',
    writeToJar classes s = (Returned tt, s')
    /\ heap s' = heap s
    /\ next s' = next s
    /\ length (new_events s s') = length (heap s classes)
    /\ map fst (written (new_events s s')) = heap s classes
    /\ forall name data compress_type size,
         In (name, data, compress_type) (written (new_events s s')) ->
         py_len data = Returned size ->
         (compress_type = ZIP_DEFLATED <-> (10000 < size)%Z)
         /\ (compress_type = ZIP_STORED <-> (size <= 10000)%Z).
Proof.
  intros Hf. eexists. split; [by apply writeToJar_filed|]. simpl.
  rewrite new_events_mkState. split; [done|]. split; [done|].
  split; [by rewrite length_map|]. split; [apply written_writes|].
  intros name data c size Hin Hlen.
  induction (heap s classes) as [|[n d] items IH]; [done|].
  simpl in Hf. apply Forall_cons in Hf as [_ Hf].
  unfold written in Hin. simpl in Hin. apply in_app_iff in Hin as [Hin|Hin];
    [|by apply IH].
  unfold jar_entry in Hin. simpl in Hin.
  destruct (py_len d) as [sz|e] eqn:Hd; destruct Hin as [[= <- <- <-]|[]];
    rewrite Hd in Hlen; [|done]. injection Hlen as <-.
  destruct (Z.ltb_spec 10000 sz); split; split; try done; lia.
Qed.

(** ** [main] as a whole *)

Lemma main_unfold fast outname dexs s :
  main fast outname dexs s =
    let lc := next s in
    let le := S (next s) in
    match translate_images (select_opts fast) lc le dexs
            (mkState (upd le [] (upd lc [] (heap s))) (S (S (next s))) (trace s))
    with
    | (Raised e, s1) => (Raised e, s1)
    | (Returned _, s1) =>
        match writeToJar lc s1 with
        | (Raised e, s2) => (Raised e, s2)
        | (Returned _, s2) => main_report outname lc le s2
        end
    end.
Proof. reflexivity. Qed.

Lemma main_report_spec outname lc le s :
  main_report outname lc le s =
    (Returned tt,
     mkState (heap s) (next s)
       (trace s ++ [Print [PyStr "Output written to"; PyStr outname]]
                ++ map error_line (sorted_items (heap s le))
                ++ [summary_line (heap s lc) (heap s le)])).
Proof.
  unfold main_report, items, len, bind at 1 2. simpl.
  unfold bind at 1.
  assert (Hlines : forall l t,
    for_each l (fun '(name, error) => print [PyStr name; error]) t =
      (Returned tt,
       mkState (heap t) (next t) (trace t ++ map error_line l))).
  { clear. intros l. induction l as [|[n e] l IH]; intros t.
    - simpl. unfold ret. destruct t. simpl. by rewrite app_nil_r.
    - rewrite for_each_cons. unfold print, emit. rewrite IH. simpl.
      by rewrite <- app_assoc. }
  rewrite Hlines. unfold bind, print, emit, summary_line. simpl.
  by rewrite <- !app_assoc.
Qed.

Lemma NoDup_snoc {A} (l : list A) x :
  List.NoDup l -> ~ In x l -> List.NoDup (l ++ [x]).
Proof.
  induction 1 as [|y l Hy Hl IH]; intros Hx; simpl.
  - constructor; [by intros [] | constructor].
  - constructor.
    + rewrite in_app_iff. simpl. intros [?|[->|[]]]; [done|]. apply Hx. by left.
    + apply IH. intros ?. apply Hx. by right.
Qed.

Lemma iteration_unique opts lc le cls s r s' l :
  iteration opts lc le cls s r s' ->
  List.NoDup (od_keys (heap s l)) -> List.NoDup (od_keys (heap s' l)).
Proof.
  destruct 1 as [ |d h' Hc He _ ->|e h' Hc He _ _ ->| ]; simpl; try done; intros Hnd.
  - destruct (Nat.eq_dec l lc) as [->|Hne]; [|by rewrite upd_ne].
    rewrite upd_eq, od_keys_app. by apply NoDup_snoc.
  - destruct (Nat.eq_dec l le) as [->|Hne]; [|by rewrite upd_ne].
    rewrite upd_eq, od_keys_app. by apply NoDup_snoc.
Qed.

Lemma run_unique opts lc le cs s r s' l :
  run (iteration opts lc le) cs s r s' ->
  List.NoDup (od_keys (heap s l)) -> List.NoDup (od_keys (heap s' l)).
Proof.
  induction 1 as [s|cls cs s s1 r s2 Hit _ IH|cls cs s e s1 Hit]; intros Hnd.
  - done.
  - apply IH. by eapply iteration_unique.
  - by eapply iteration_unique.
Qed.

Lemma translation_given opts lc le data s r s' :
  lc <> le ->
  translation data opts (Some lc) (Some le) s r s' ->
  next s' = next s
  /\ (List.NoDup (od_keys (heap s lc)) -> List.NoDup (od_keys (heap s' lc)))
  /\ (List.NoDup (od_keys (heap s le)) -> List.NoDup (od_keys (heap s' le)))
  /\ (Forall filed (map snd (heap s lc)) -> Forall filed (map snd (heap s' lc))).
Proof.
  intros Hne.
  assert (Hloop : forall dex r0,
    run (iteration opts lc le) dex (parsed data s) r0 s' ->
    next s' = next s
    /\ (List.NoDup (od_keys (heap s lc)) -> List.NoDup (od_keys (heap s' lc)))
    /\ (List.NoDup (od_keys (heap s le)) -> List.NoDup (od_keys (heap s' le)))
    /\ (Forall filed (map snd (heap s lc)) -> Forall filed (map snd (heap s' lc)))).
  { intros dex r0 Hrun.
    pose proof (run_extends _ _ _ _ _ _ _ Hrun) as [Hn _].
    split; [done|].
    split; [intros ?; by eapply (run_unique _ _ _ _ _ _ _ lc Hrun)|].
    split; [intros ?; by eapply (run_unique _ _ _ _ _ _ _ le Hrun)|].
    destruct (run_order _ _ _ _ _ _ _ Hne Hrun) as (dc & _ & Hdc & _ & _ & _ & Hv & _).
    intros Hf. rewrite Hdc, map_app. by apply Forall_app. }
  destruct 1 as [e Hdex|dex c e s2 s' Hdex Hentry Hrun|dex c e s2 x s' Hdex Hentry Hrun].
  - by repeat split.
  - unfold entry in Hentry. simpl in Hentry. simplify_eq. by eapply Hloop.
  - unfold entry in Hentry. simpl in Hentry. simplify_eq. by eapply Hloop.
Qed.

(** What the loop over the images keeps and emits, for the two mappings of
    [main]. *)
Lemma translate_images_spec opts lc le dexs :
  lc <> le ->
  forall s r s',
  translate_images opts lc le dexs s = (r, s') ->
  next s' = next s
  /\ (List.NoDup (od_keys (heap s lc)) -> List.NoDup (od_keys (heap s' lc)))
  /\ (List.NoDup (od_keys (heap s le)) -> List.NoDup (od_keys (heap s' le)))
  /\ (Forall filed (map snd (heap s lc)) -> Forall filed (map snd (heap s' lc)))
  /\ exists evs,
       trace s' = trace s ++ evs
       /\ written evs = []
       /\ dexfile_calls evs `prefix_of` dexs
       /\ (r = Returned tt -> dexfile_calls evs = dexs).
Proof.
  intros Hne. unfold translate_images.
  induction dexs as [|data dexs IH]; intros s r s' Hrun.
  { injection Hrun as <- <-. repeat split; try done.
    exists []. by rewrite app_nil_r. }
  rewrite for_each_cons in Hrun. unfold bind in Hrun at 1.
  destruct (translate data opts (Some lc) (Some le) s) as [[x|e] s1] eqn:Hd;
    simpl in Hrun; apply translate_translation in Hd;
    destruct (translation_trace _ _ _ _ _ _ _ Hd) as (ev1 & Ht1 & Hx1 & Hw1 & _);
    destruct (translation_given _ _ _ _ _ _ _ Hne Hd) as (Hn1 & Hc1 & He1 & Hf1).
  - destruct (IH _ _ _ Hrun) as (Hn & Hc & He & Hf & ev2 & Ht2 & Hw2 & Hp2 & Hr2).
    split; [congruence|]. split; [auto|]. split; [auto|]. split; [auto|].
    exists (CallDexFile data :: ev1 ++ ev2). rewrite Ht2, Ht1, <- app_assoc.
    split; [done|]. unfold written, dexfile_calls in *. simpl.
    rewrite !flat_map_app, Hw1, Hw2, Hx1. simpl.
    split; [done|]. split; [by apply prefix_cons|]. intros Hr. by rewrite Hr2.
  - injection Hrun as <- <-. repeat split; try done.
    exists (CallDexFile data :: ev1). split; [done|].
    unfold written, dexfile_calls in *. simpl. rewrite Hw1, Hx1.
    split; [done|]. split; [|done]. apply prefix_cons, prefix_nil.
Qed.

Lemma loop_returns opts lc le cs :
  (forall cls e, In cls cs -> toClassFile cls opts = Raised e ->
     is_Exception e = true) ->
  forall s, exists s', for_each cs (loop_body opts lc le) s = (Returned tt, s').
Proof.
  induction cs as [|cls cs IH]; intros Hok s; [by exists s|].
  rewrite for_each_cons.
  assert (Hrest : forall c e, In c cs -> toClassFile c opts = Raised e ->
            is_Exception e = true).
  { intros c e Hin. apply Hok. by right. }
  destruct (od_contains (unicode_name_of cls) (heap s lc)) eqn:Hc.
  { rewrite loop_body_duplicate by (by rewrite Hc). by apply IH. }
  destruct (od_contains (unicode_name_of cls) (heap s le)) eqn:He.
  { rewrite loop_body_duplicate by (by rewrite Hc, He). by apply IH. }
  destruct (toClassFile cls opts) as [data|e] eqn:Hd.
  - rewrite (loop_body_success _ _ _ _ _ data) by done. by apply IH.
  - rewrite (loop_body_failure _ _ _ _ _ e); try done; [by apply IH|].
    eapply Hok; [by left | done].
Qed.

Lemma translate_images_returns opts lc le dexs :
  nothing_fatal opts dexs ->
  forall s, exists s', translate_images opts lc le dexs s = (Returned tt, s').
Proof.
  unfold translate_images.
  induction dexs as [|data dexs IH]; intros Hok s; [by exists s|].
  destruct (Hok data (or_introl eq_refl)) as (dex & Hdex & Hcls).
  rewrite for_each_cons. unfold bind at 1.
  rewrite (translate_loop _ _ _ _ _ _ Hdex). unfold entry. simpl.
  destruct (loop_returns opts lc le dex Hcls (parsed data s)) as (s1 & ->).
  simpl. apply IH. intros d Hd. apply Hok. by right.
Qed.

Lemma written_app evs1 evs2 : written (evs1 ++ evs2) = written evs1 ++ written evs2.
Proof. apply flat_map_app. Qed.

Lemma written_error_lines items : written (map error_line items) = [].
Proof. by induction items. Qed.

Lemma written_jar_writes items :
  map (fun entry => fst (fst entry)) (written (map jar_write items)) = od_keys items.
Proof.
  induction items as [|[n d] items IH]; [done|].
  unfold written, jar_write, jar_entry in *. simpl.
  destruct (py_len d); simpl; by rewrite IH.
Qed.

Lemma written_main_output evs items args report c e :
  written (evs ++ map jar_write items
               ++ Print args :: map error_line report ++ [summary_line c e])
  = written evs ++ written (map jar_write items).
Proof.
  change (Print args :: map error_line report ++ [summary_line c e])
    with ([Print args] ++ map error_line report ++ [summary_line c e]).
  rewrite !written_app, written_error_lines. simpl. by rewrite app_nil_r.
Qed.

(** The store in which [main] starts its loop: two new empty mappings. *)
Lemma main_mappings_empty (s : state) :
  let lc := next s in
  let le := S (next s) in
  let h := upd le [] (upd lc [] (heap s)) in
  lc <> le /\ h lc = [] /\ h le = [].
Proof.
  simpl. split; [lia|]. rewrite upd_eq. rewrite upd_ne by lia. by rewrite upd_eq.
Qed.

(** X7: However [main] ends, no two entries it has written to the archive
    bear the same name. *)
Theorem archive_names_are_distinct fast outname dexs s r s' :
  main fast outname dexs s = (r, s') ->
  List.NoDup (map (fun entry => fst (fst entry)) (written (new_events s s'))).
Proof.
  rewrite main_unfold. simpl. intros Hrun.
  destruct (main_mappings_empty s) as (Hne & Hc0 & He0).
  destruct (translate_images _ _ _ _ _) as [r1 s1] eqn:Himages.
  destruct (translate_images_spec _ _ _ _ Hne _ _ _ Himages)
    as (_ & Hnd & _ & Hf & evs & Ht & Hw & _).
  simpl in Hnd, Hf, Ht. rewrite Hc0 in Hnd, Hf.
  destruct r1 as [[]|e].
  2: { injection Hrun as <- <-. rewrite (new_events_app _ _ _ Ht), Hw. constructor. }
  rewrite writeToJar_filed in Hrun by (apply Hf; constructor).
  rewrite main_report_spec in Hrun. injection Hrun as <- <-.
  cbn [heap next trace]. rewrite Ht, <- !app_assoc, new_events_mkState.
  fold jar_write. change (fun item => jar_write item) with jar_write.
  rewrite written_main_output, Hw. simpl.
  rewrite written_jar_writes. apply Hnd. constructor.
Qed.

(** X8: When nothing is fatal (every image parses, and the classes that do
    not translate fail with an [Exception]), [main] returns, and its output
    is: the events of the translation, in which every image is parsed once,
    in the order given, and nothing is written; then one archive entry per
    item of the success mapping, in order; the line that names the output
    file; one line per item of the error mapping, in sorted order; and the
    summary, which shows the sizes of the two mappings. *)
Theorem main_output fast outname dexs s :
  nothing_fatal (select_opts fast) dexs ->
  exists evs s',
    main fast outname dexs s = (Returned tt, s')
    /\ new_events s s' =
         evs
         ++ map jar_write (heap s' (next s))
         ++ [Print [PyStr "Output written to"; PyStr outname]]
         ++ map error_line (sorted_items (heap s' (S (next s))))
         ++ [summary_line (heap s' (next s)) (heap s' (S (next s)))]
    /\ written evs = []
    /\ dexfile_calls evs = dexs.
Proof.
  intros Hok. rewrite main_unfold. simpl.
  destruct (main_mappings_empty s) as (Hne & Hc0 & He0).
  match goal with |- context [translate_images ?o ?c ?e ?d ?st] =>
    destruct (translate_images_returns o c e d Hok st) as (s1 & Himages) end.
  rewrite Himages.
  destruct (translate_images_spec _ _ _ _ Hne _ _ _ Himages)
    as (_ & _ & _ & Hf & evs & Ht & Hw & _ & Hx).
  simpl in Hf, Ht. rewrite Hc0 in Hf.
  rewrite writeToJar_filed by (apply Hf; constructor).
  rewrite main_report_spec. simpl.
  exists evs. eexists. split; [reflexivity|]. simpl.
  rewrite Ht, <- !app_assoc, new_events_mkState. fold jar_write.
  split; [done|]. split; [done | by apply Hx].
Qed.

(** ** The error report *)

Lemma insert_item_perm x l : Permutation (insert_item x l) (x :: l).
Proof.
  induction l as [|y l IH]; simpl; [done|].
  destruct (String.leb (fst x) (fst y)); [done|].
  rewrite IH. apply perm_swap.
Qed.

Lemma sorted_items_perm l : Permutation (sorted_items l) l.
Proof.
  unfold sorted_items. induction l as [|x l IH]; simpl; [done|].
  by rewrite insert_item_perm, IH.
Qed.

Lemma insert_item_sorted x l :
  Sorted (fun a b => String.leb (fst a) (fst b) = true) l ->
  Sorted (fun a b => String.leb (fst a) (fst b) = true) (insert_item x l).
Proof.
  induction 1 as [|y l Hl IH Hy]; simpl.
  - by repeat constructor.
  - destruct (String.leb (fst x) (fst y)) eqn:Hxy.
    + constructor; [by constructor | by constructor].
    + constructor; [done|].
      assert (String.leb (fst y) (fst x) = true) as Hyx.
      { destruct (String.leb_total (fst x) (fst y)); congruence. }
      destruct Hy as [|z l Hz]; simpl; [by constructor|].
      destruct (String.leb (fst x) (fst z)); by constructor.
Qed.

(** X9: After the archive is written, [main] prints the name of the output
    file, then one line per class that failed, with its name and its
    traceback, and then the summary. The lines of the failed classes are the
    items of the error mapping, each once, in the order of their names,
    whatever the order in which the classes failed. *)
Theorem error_report_is_sorted outname lc le s :
  exists report,
    main_report outname lc le s =
      (Returned tt,
       mkState (heap s) (next s)
         (trace s ++ [Print [PyStr "Output written to"; PyStr outname]]
                  ++ map error_line report
                  ++ [summary_line (heap s lc) (heap s le)]))
    /\ Permutation report (heap s le)
    /\ Sorted (fun a b => String.leb (fst a) (fst b) = true) report.
Proof.
  exists (sorted_items (heap s le)). split; [apply main_report_spec|].
  unfold sorted_items. induction (heap s le) as [|x l [IHp IHs]]; simpl.
  - split; constructor.
  - split; [by rewrite insert_item_perm, IHp | by apply insert_item_sorted].
Qed.

(** ** No class is lost by [main] *)

Lemma translate_images_grow opts lc le dexs :
  forall s r s',
  translate_images opts lc le dexs s = (r, s') ->
  forall l k, l < next s ->
    In k (od_keys (heap s l)) -> In k (od_keys (heap s' l)).
Proof.
  unfold translate_images.
  induction dexs as [|data dexs IH]; intros s r s' Hrun l k Hl Hk.
  { by injection Hrun as <- <-. }
  rewrite for_each_cons in Hrun. unfold bind in Hrun at 1.
  destruct (translate data opts (Some lc) (Some le) s) as [[x|e] s1] eqn:Hd;
    simpl in Hrun; apply translate_translation in Hd;
    destruct (translation_extends _ _ _ _ _ _ _ Hd) as (Hn & Hpre & _);
    destruct (Hpre l Hl) as [d Hd1].
  - eapply IH; [done | lia|]. rewrite Hd1, od_keys_app, in_app_iff. by left.
  - injection Hrun as <- <-. rewrite Hd1, od_keys_app, in_app_iff. by left.
Qed.

Lemma translate_images_filed opts lc le dexs :
  forall s s',
  translate_images opts lc le dexs s = (Returned tt, s') ->
  lc < next s -> le < next s ->
  forall data dex cls,
    In data dexs -> DexFile data = Returned dex -> In cls dex ->
    In (unicode_name_of cls) (od_keys (heap s' lc))
    \/ In (unicode_name_of cls) (od_keys (heap s' le)).
Proof.
  induction dexs as [|d dexs IH]; intros s s' Hrun Hlc Hle data dex cls Hin Hdex Hcls;
    [done|].
  unfold translate_images in Hrun. rewrite for_each_cons in Hrun.
  unfold bind in Hrun at 1.
  destruct (translate d opts (Some lc) (Some le) s) as [[[c e]|e] s1] eqn:Hd;
    [|done].
  simpl in Hrun. fold (translate_images opts lc le dexs s1) in Hrun.
  pose proof (translate_translation _ _ _ _ _ _ _ Hd) as Htr.
  destruct (translation_extends _ _ _ _ _ _ _ Htr) as (Hn & _ & _).
  destruct Hin as [->|Hin].
  - assert (c = lc /\ e = le) as [-> ->].
    { inversion Htr as [|? ? ? ? ? ? Hentry|]; subst.
      unfold entry in Hentry. simpl in Hentry. by simplify_eq. }
    destruct (translation_filed _ _ _ _ _ _ _ _ _ cls Htr Hdex Hcls) as [Hk|Hk];
      [left | right];
      eapply (translate_images_grow _ _ _ _ _ _ _ Hrun); try done; lia.
  - eapply (IH s1 s'); try done; lia.
Qed.

(** X10: When [main] returns, no class has been lost: every class of every
    image that was given has an archive entry under its decoded name or a
    line under that name in the error report. *)
Theorem every_class_is_written_or_reported
    fast outname dexs s s' data dex cls :
  main fast outname dexs s = (Returned tt, s') ->
  In data dexs ->
  DexFile data = Returned dex ->
  In cls dex ->
  (exists class_data compress_type,
     In (WriteStr (unicode_name_of cls) class_data compress_type)
        (new_events s s'))
  \/ (exists error,
        In (Print [PyStr (unicode_name_of cls); error]) (new_events s s')).
Proof.
  rewrite main_unfold. simpl. intros Hrun Hin Hdex Hcls.
  destruct (main_mappings_empty s) as (Hne & Hc0 & He0).
  destruct (translate_images _ _ _ _ _) as [r1 s1] eqn:Himages.
  destruct (translate_images_spec _ _ _ _ Hne _ _ _ Himages)
    as (_ & _ & _ & Hf & evs & Ht & _).
  simpl in Hf, Ht. rewrite Hc0 in Hf.
  destruct r1 as [[]|e]; [|done].
  rewrite writeToJar_filed in Hrun by (apply Hf; constructor).
  rewrite main_report_spec in Hrun. injection Hrun as <-.
  cbn [heap next trace]. rewrite Ht, <- !app_assoc, new_events_mkState.
  destruct (translate_images_filed _ _ _ _ _ _ Himages) with (data := data)
    (dex := dex) (cls := cls) as [Hk|Hk]; simpl; try done; try lia.
  - left. apply in_map_iff in Hk as ([n d] & Hn & Hitem). simpl in Hn. subst n.
    destruct (jar_entry (unicode_name_of cls, d)) as [[n' d'] c] eqn:Hentry.
    exists d', c. apply in_app_iff. right. apply in_app_iff. left.
    apply in_map_iff. exists (unicode_name_of cls, d). split; [|done].
    rewrite Hentry. unfold jar_entry in Hentry. simpl in Hentry.
    by destruct (py_len d); injection Hentry as <- <- <-.
  - right. apply in_map_iff in Hk as ([n v] & Hn & Hitem). simpl in Hn. subst n.
    exists v. apply in_app_iff. right. apply in_app_iff. right.
    right. apply in_app_iff. left.
    apply in_map_iff. exists (unicode_name_of cls, v). split; [done|].
    by apply (Permutation_in _ (Permutation_sym (sorted_items_perm _))).
Qed.


End MoreProperties.

(** * The start of [main] *)

(** ** The string methods *)

Lemma startswith_spec s p :
  startswith s p = true <-> exists t, s = (p ++ t)%string.
Proof.
  revert s. induction p as [|c p IH]; intros s; simpl.
  - split; [intros _; by exists s | by destruct s].
  - destruct s as [|d s]; simpl.
    + split; [done | by intros [t ?]].
    + rewrite andb_true_iff, Ascii.eqb_eq, IH. split.
      * intros [-> [t ->]]. by exists t.
      * intros [t [= -> ->]]. split; [done | by exists t].
Qed.

Lemma endswith_spec s suffix :
  endswith s suffix = true <-> exists t, s = (t ++ suffix)%string.
Proof.
  induction s as [|c s IH]; cbn [endswith].
  - rewrite orb_false_r, String.eqb_eq. split.
    + intros <-. by exists EmptyString.
    + intros [[|d t] Ht]; [done | discriminate Ht].
  - rewrite orb_true_iff, String.eqb_eq, IH. split.
    + intros [<-|[t ->]]; [by exists EmptyString | by exists (String c t)].
    + intros [[|d t] Ht]; [by left|]. injection Ht as <- ->. right. by exists t.
Qed.

Lemma append_nil s : (EmptyString ++ s)%string = s.
Proof. reflexivity. Qed.

Lemma append_cons c s1 s2 : (String c s1 ++ s2)%string = String c (s1 ++ s2).
Proof. reflexivity. Qed.

Lemma occurs_cons c d s : occurs c (String d s) <-> d = c \/ occurs c s.
Proof. done. Qed.

Lemma occurs_app c s1 s2 :
  occurs c (s1 ++ s2)%string <-> occurs c s1 \/ occurs c s2.
Proof.
  induction s1 as [|d s1 IH].
  - rewrite append_nil. unfold occurs at 2. simpl. tauto.
  - rewrite append_cons, !occurs_cons, IH. tauto.
Qed.

Lemma rsplit_None s sep : rsplit s sep = None <-> ~ occurs sep s.
Proof.
  induction s as [|c s IH]; simpl; [by split; [intros _ [] | ]|].
  rewrite occurs_cons. destruct (rsplit s sep) as [[h t]|].
  - split; [done|]. intros Hn. exfalso. destruct IH as [_ IH].
    discriminate IH. tauto.
  - destruct (Ascii.eqb_spec c sep) as [->|Hne].
    + split; [done | tauto].
    + split; [|done]. intros _ [?|?]; [done|]. by apply IH.
Qed.

Lemma rsplit_Some s sep h t :
  rsplit s sep = Some (h, t) ->
  s = (h ++ String sep t)%string /\ ~ occurs sep t.
Proof.
  revert h. induction s as [|c s IH]; intros h; simpl; [done|].
  destruct (rsplit s sep) as [[h' t']|] eqn:Hs.
  - intros [= <- <-]. destruct (IH h' eq_refl) as [-> Ht]. done.
  - destruct (Ascii.eqb_spec c sep) as [->|Hne]; [|done].
    intros [= <- <-]. split; [done|]. by apply rsplit_None.
Qed.

Lemma rsplit_last h t sep :
  ~ occurs sep t -> rsplit (h ++ String sep t) sep = Some (h, t).
Proof.
  intros Ht. induction h as [|c h IH].
  - rewrite append_nil. simpl. apply rsplit_None in Ht. rewrite Ht.
    by rewrite Ascii.eqb_refl.
  - rewrite append_cons. simpl. by rewrite IH.
Qed.

Section StartupProperties.
Context {X : Collaborators} {F : Files}.

(** ** The images of the input file *)

Lemma read_entries_spec fname names dexs :
  read_entries fname names = Returned dexs ->
  Forall2 (fun name data => zip_read fname name = Returned data)
    (List.filter is_dex_entry names) dexs.
Proof.
  revert dexs. induction names as [|name names IH]; intros dexs; simpl.
  - intros [= <-]. constructor.
  - destruct (is_dex_entry name); [|apply IH].
    destruct (zip_read fname name) as [data|e] eqn:Hread; [|done].
    destruct (read_entries fname names) as [rest|e]; [|done].
    intros [= <-]. constructor; [done | by apply IH].
Qed.

(** X11: When the images are loaded from an input file whose name ends in
    [apk] (with or without a dot before it), they are the contents of the
    entries of the archive whose names begin with [classes] and end in
    [.dex], one image per such entry and in the order in which the archive
    lists them; from any other input file, the one image is the contents of
    the file. *)
Theorem images_of_the_input_file fname dexs :
  load_images fname = Returned dexs ->
  ((exists t, fname = (t ++ "apk")%string) ->
   exists names,
     zip_namelist fname = Returned names
     /\ Forall2 (fun name data => zip_read fname name = Returned data)
          (List.filter
             (fun name => startswith name "classes" && endswith name ".dex")
             names)
          dexs)
  /\ (~ (exists t, fname = (t ++ "apk")%string) ->
      read fname = Returned (hd [] dexs) /\ length dexs = 1).
Proof.
  unfold load_images. intros Hload. split.
  - intros Hapk. apply endswith_spec in Hapk. rewrite Hapk in Hload.
    destruct (zip_namelist fname) as [names|e]; [|done].
    exists names. split; [done|]. by apply read_entries_spec.
  - intros Hapk. rewrite <- endswith_spec in Hapk.
    destruct (endswith fname "apk"); [done|].
    destruct (read fname) as [data|e]; [|done]. by injection Hload as <-.
Qed.

(** ** The name of the output file *)

Lemma rpartition_last h t sep :
  ~ occurs sep t ->
  rpartition (h ++ String sep t) sep = (h, String sep EmptyString, t).
Proof. intros Ht. unfold rpartition. by rewrite rsplit_last. Qed.

Lemma rpartition_absent s sep :
  ~ occurs sep s -> rpartition s sep = (EmptyString, EmptyString, s).
Proof. intros Hs. unfold rpartition. apply rsplit_None in Hs. by rewrite Hs. Qed.

(** X12: The default name of the output file is made from the last component
    of the path of the input file, cut at its last dot: for [dir/base.ext],
    and for [base.ext] alone, it is [base-enjarify.jar] (whatever dots
    [base] and slashes or dots [dir] contain); and for an input file whose
    last component has no dot, nothing of the name is kept: the output file
    is [-enjarify.jar]. *)
Theorem default_output_name_of_a_path dir base ext :
  ~ occurs "/" base ->
  ~ occurs "/" ext ->
  ~ occurs "." ext ->
  default_output_name (dir ++ "/" ++ base ++ "." ++ ext)
    = (base ++ "-enjarify.jar")%string
  /\ default_output_name (base ++ "." ++ ext) = (base ++ "-enjarify.jar")%string
  /\ default_output_name (dir ++ "/" ++ ext) = "-enjarify.jar"
  /\ default_output_name ext = "-enjarify.jar".
Proof.
  intros Hbase Hext Hdot. unfold default_output_name.
  assert (Htail : ~ occurs "/" (base ++ "." ++ ext)).
  { rewrite occurs_app. intros [?|Hin]; [done|].
    simpl in Hin. apply occurs_cons in Hin as [?|?]; done. }
  repeat split.
  - change (dir ++ "/" ++ base ++ "." ++ ext)%string
      with (dir ++ String "/" (base ++ "." ++ ext))%string.
    rewrite rpartition_last by done. simpl.
    change (base ++ "." ++ ext)%string with (base ++ String "." ext)%string.
    by rewrite rpartition_last.
  - rewrite (rpartition_absent _ "/") by done. simpl.
    change (base ++ "." ++ ext)%string with (base ++ String "." ext)%string.
    by rewrite rpartition_last.
  - change (dir ++ "/" ++ ext)%string with (dir ++ String "/" ext)%string.
    rewrite rpartition_last by done. simpl. by rewrite rpartition_absent.
  - rewrite (rpartition_absent _ "/") by done. simpl. by rewrite rpartition_absent.
Qed.

(** X13: Whatever the input file, the default name of the output file
    contains no slash, so that the file is created in the current directory,
    and it ends in [-enjarify.jar]. *)
Theorem default_output_name_is_local fname :
  ~ occurs "/" (default_output_name fname)
  /\ exists stem, default_output_name fname = (stem ++ "-enjarify.jar")%string.
Proof.
  unfold default_output_name. split; [|by eexists].
  assert (Htail : ~ occurs "/" (snd (rpartition fname "/"))).
  { unfold rpartition. destruct (rsplit fname "/") as [[h t]|] eqn:Hs; simpl.
    - by destruct (rsplit_Some _ _ _ _ Hs).
    - by apply rsplit_None. }
  assert (Hstem : forall s, ~ occurs "/" s ->
            ~ occurs "/" (fst (fst (rpartition s ".")))).
  { intros s Hs. unfold rpartition.
    destruct (rsplit s ".") as [[h t]|] eqn:Hsplit; simpl; [|by intros []].
    destruct (rsplit_Some _ _ _ _ Hsplit) as [-> _].
    intros Hh. apply Hs, occurs_app. by left. }
  rewrite occurs_app. intros [Hin|Hin]; [by eapply Hstem|].
  unfold occurs in Hin. simpl in Hin.
  repeat (destruct Hin as [Hin|Hin]; [discriminate Hin|]). done.
Qed.

(** ** Overwrite protection *)

(** X14: When the output file exists already and cannot be taken ([open]
    raises [FileExistsError]), [main] prints two lines of explanation and
    returns: the images, though loaded, are not translated, nothing is
    parsed and nothing is written, and the store is left as it was. *)
Theorem existing_output_is_not_overwritten a dexs s :
  load_images (inputfile a) = Returned dexs ->
  open_output (output_name a) (negb (force a)) = AlreadyExists ->
  exists s',
    main_from_args a s = (Returned tt, s')
    /\ heap s' = heap s
    /\ next s' = next s
    /\ new_events s s' =
         [Print [PyStr "Error, output file already exists and --force was not specified."];
          Print [PyStr "To overwrite the output file, pass -f or --force."]]
    /\ dexfile_calls (new_events s s') = []
    /\ written (new_events s s') = [].
Proof.
  intros Hload Hopen. unfold main_from_args, lift, bind at 1.
  rewrite Hload, Hopen. unfold print, emit, bind. simpl.
  eexists. split; [reflexivity|]. simpl.
  rewrite <- app_assoc, new_events_mkState. by repeat split.
Qed.

End StartupProperties.

(** * The further properties at work on concrete inputs *)

Section MoreRuns.
#[local] Existing Instance Toy.collaborators.
#[local] Existing Instance ToyFiles.files.

Import Toy ToyFiles.

Example run_main_from_args :
  let out := main_from_args (mkArgs "apps/my.app.apk" None true true) init_state in
  fst out = Returned tt
  /\ written (trace (snd out))
     = [("A.class", PyBytes [A; A], ZIP_STORED);
        ("B.class", PyBytes [B; B], ZIP_STORED)]
  /\ dexfile_calls (trace (snd out)) = [[A; X]; [B; A]].
Proof. by repeat split. Qed.

Example run_unreadable_input :
  fst (main_from_args (mkArgs "missing.dex" None true false) init_state)
  = Raised NoSuchFile.
Proof. reflexivity. Qed.

Lemma every_class_is_filed_witness :
  In (unicode_name_of (X := collaborators) X)
     (od_keys (heap (snd (translate [A; X; A] PRETTY None None init_state)) 0))
  \/ In (unicode_name_of (X := collaborators) X)
        (od_keys (heap (snd (translate [A; X; A] PRETTY None None init_state)) 1)).
Proof.
  apply (every_class_is_filed (X := collaborators)
           [A; X; A] PRETTY None None init_state 0 1
           (snd (translate [A; X; A] PRETTY None None init_state)) [A; X; A] X).
  - reflexivity.
  - reflexivity.
  - simpl. auto.
Defined.

Lemma entries_are_genuine_witness :
  (Some 0 = Some 0 /\ In ("B.class", PyBytes [B]) (heap after_AX 0))
  \/ exists dex cls class_data,
       DexFile (Collaborators := collaborators) [B; X] = Returned dex
       /\ In cls dex
       /\ toClassFile cls PRETTY = Returned class_data
       /\ ("B.class", PyBytes [B]) = (unicode_name_of cls, PyBytes class_data).
Proof.
  apply (proj1 (entries_are_genuine (X := collaborators)
                  [B; X] PRETTY (Some 0) (Some 1) after_AX 0 1
                  (snd (translate [B; X] PRETTY (Some 0) (Some 1) after_AX))
                  ltac:(simpl; lia) ltac:(simpl; lia)
                  ltac:(intros c e [= <-] [= <-]; discriminate)
                  eq_refl)).
  simpl. auto.
Defined.

Lemma every_class_is_translated_or_warned_about_witness :
  length [A; X; A; B]
    = length (toClassFile_calls
                (new_events init_state
                   (snd (translate [A; X; A; B] PRETTY None None init_state))))
      + length (duplicate_warnings
                  (new_events init_state
                     (snd (translate [A; X; A; B] PRETTY None None init_state))))
  /\ length (heap (snd (translate [A; X; A; B] PRETTY None None init_state)) 0)
     + length (heap (snd (translate [A; X; A; B] PRETTY None None init_state)) 1)
     = length (toClassFile_calls
                 (new_events init_state
                    (snd (translate [A; X; A; B] PRETTY None None init_state)))).
Proof.
  apply (every_class_is_translated_or_warned_about (X := collaborators)
           [A; X; A; B] PRETTY init_state 0 1
           (snd (translate [A; X; A; B] PRETTY None None init_state)) [A; X; A; B]);
    reflexivity.
Defined.

Lemma progress_is_reported_by_the_thousand_witness :
  In (Print [PyInt 1000; PyStr "classes processed"])
     (new_events crowded (snd (translate [A] PRETTY (Some 0) (Some 1) crowded)))
  /\ ((1000 mod 1000 = 0)%Z
      /\ (0 < 1000)%Z
      /\ Z.le 1000
           (Z.add
              (od_len (heap (snd (translate [A] PRETTY (Some 0) (Some 1) crowded)) 0))
              (od_len (heap (snd (translate [A] PRETTY (Some 0) (Some 1) crowded)) 1))))
  /\ ~ In (Print [PyInt 1000; PyStr "classes processed"])
         (new_events init_state
            (snd (translate [A; X] PRETTY None None init_state))).
Proof.
  assert (Hin : In (Print [PyInt 1000; PyStr "classes processed"])
    (new_events crowded (snd (translate [A] PRETTY (Some 0) (Some 1) crowded)))).
  { vm_compute. do 3 right. left. reflexivity. }
  split; [exact Hin|]. split.
  - apply (proj1 (progress_is_reported_by_the_thousand (X := collaborators)
                    [A] PRETTY (Some 0) (Some 1) crowded 0 1
                    (snd (translate [A] PRETTY (Some 0) (Some 1) crowded))
                    1000%Z eq_refl)).
    exact Hin.
  - apply (proj2 (progress_is_reported_by_the_thousand (X := collaborators)
                    [A; X] PRETTY None None init_state 0 1
                    (snd (translate [A; X] PRETTY None None init_state))
                    1000%Z eq_refl)).
    vm_compute. reflexivity.
Defined.

Lemma translate_stops_at_a_base_exception_witness :
  exists s',
    translate [A; X; I; B] PRETTY None None init_state = (Raised Interrupt, s')
    /\ heap s' (next init_state) = translated PRETTY [A; X]
    /\ heap s' (S (next init_state)) = failed PRETTY [A; X]
    /\ decode_calls (new_events init_state s')
       = map (cls_name (Collaborators := collaborators)) ([A; X] ++ [I]).
Proof.
  apply (translate_stops_at_a_base_exception (X := collaborators)
           [A; X; I; B] PRETTY [A; X] I [B] Interrupt init_state).
  - reflexivity.
  - repeat constructor; simpl; intuition discriminate.
  - intros cls e' [<-|[<-|[]]] Hcls; [discriminate Hcls|].
    injection Hcls as <-. reflexivity.
  - reflexivity.
  - reflexivity.
Defined.

Lemma writeToJar_writes_the_items_witness :
  exists s',
    writeToJar 0 after_AX = (Returned tt, s')
    /\ heap s' = heap after_AX
    /\ next s' = next after_AX
    /\ length (new_events after_AX s') = length (heap after_AX 0)
    /\ map fst (written (new_events after_AX s')) = heap after_AX 0
    /\ forall name data compress_type size,
         In (name, data, compress_type) (written (new_events after_AX s')) ->
         py_len data = Returned size ->
         (compress_type = ZIP_DEFLATED <-> (10000 < size)%Z)
         /\ (compress_type = ZIP_STORED <-> (size <= 10000)%Z).
Proof.
  apply (writeToJar_writes_the_items (X := collaborators) 0 after_AX).
  repeat constructor.
Defined.

Lemma archive_names_are_distinct_witness :
  List.NoDup
    (map (fun entry : string * pyobj * compression => fst (fst entry))
       (written
          (new_events init_state
             (snd (main false "out.jar" [[A; X]; [B; A]] init_state))))).
Proof.
  apply (archive_names_are_distinct (X := collaborators)
           false "out.jar" [[A; X]; [B; A]] init_state
           (fst (main false "out.jar" [[A; X]; [B; A]] init_state))
           (snd (main false "out.jar" [[A; X]; [B; A]] init_state))).
  reflexivity.
Defined.

Lemma main_output_witness :
  exists evs s',
    main true "out.jar" [[A; X]; [B; A]] init_state = (Returned tt, s')
    /\ new_events init_state s' =
         evs
         ++ map jar_write (heap s' (next init_state))
         ++ [Print [PyStr "Output written to"; PyStr "out.jar"]]
         ++ map error_line (sorted_items (heap s' (S (next init_state))))
         ++ [summary_line (heap s' (next init_state))
               (heap s' (S (next init_state)))]
    /\ written evs = []
    /\ dexfile_calls evs = [[A; X]; [B; A]].
Proof.
  apply (main_output (X := collaborators) true "out.jar" [[A; X]; [B; A]] init_state).
  intros data [<-|[<-|[]]]; eexists; (split; [reflexivity|]);
    intros cls e Hin Hcls; simpl in Hin;
    repeat (destruct Hin as [<-|Hin]; [by (discriminate Hcls || injection Hcls as <-)|]);
    destruct Hin.
Defined.

Lemma every_class_is_written_or_reported_witness :
  (exists class_data compress_type,
     In (WriteStr (unicode_name_of (X := collaborators) X) class_data compress_type)
        (new_events init_state
           (snd (main false "out.jar" [[A; X]; [B; A]] init_state))))
  \/ (exists error,
        In (Print [PyStr (unicode_name_of (X := collaborators) X); error])
           (new_events init_state
              (snd (main false "out.jar" [[A; X]; [B; A]] init_state)))).
Proof.
  apply (every_class_is_written_or_reported (X := collaborators)
           false "out.jar" [[A; X]; [B; A]] init_state
           (snd (main false "out.jar" [[A; X]; [B; A]] init_state))
           [A; X] [A; X] X).
  - reflexivity.
  - simpl. auto.
  - reflexivity.
  - simpl. auto.
Defined.

Lemma images_of_the_input_file_witness :
  (exists names,
     zip_namelist "apps/my.app.apk" = Returned names
     /\ Forall2 (fun name data => zip_read "apps/my.app.apk" name = Returned data)
          (List.filter
             (fun name => startswith name "classes" && endswith name ".dex")
             names)
          [[A; X]; [B; A]])
  /\ (read "classes.dex" = Returned (hd [] [[A; X]]) /\ length [[A; X]] = 1).
Proof.
  split.
  - apply (proj1 (images_of_the_input_file (F := files)
                    "apps/my.app.apk" [[A; X]; [B; A]] eq_refl)).
    by exists "apps/my.app.".
  - apply (proj2 (images_of_the_input_file (F := files)
                    "classes.dex" [[A; X]] eq_refl)).
    intros Hapk. apply endswith_spec in Hapk. discriminate Hapk.
Defined.

Lemma default_output_name_of_a_path_witness :
  default_output_name ("apps" ++ "/" ++ "my.app" ++ "." ++ "apk")
    = ("my.app" ++ "-enjarify.jar")%string
  /\ default_output_name ("my.app" ++ "." ++ "apk")
     = ("my.app" ++ "-enjarify.jar")%string
  /\ default_output_name ("apps" ++ "/" ++ "apk") = "-enjarify.jar"
  /\ default_output_name "apk" = "-enjarify.jar".
Proof.
  apply (default_output_name_of_a_path "apps" "my.app" "apk");
    unfold occurs; simpl; intuition discriminate.
Defined.

Lemma existing_output_is_not_overwritten_witness :
  exists s',
    main_from_args (mkArgs "apps/my.app.apk" None false false) init_state
      = (Returned tt, s')
    /\ heap s' = heap init_state
    /\ next s' = next init_state
    /\ new_events init_state s' =
         [Print [PyStr "Error, output file already exists and --force was not specified."];
          Print [PyStr "To overwrite the output file, pass -f or --force."]]
    /\ dexfile_calls (new_events init_state s') = []
    /\ written (new_events init_state s') = [].
Proof.
  apply (existing_output_is_not_overwritten (X := collaborators)
           (mkArgs "apps/my.app.apk" None false false) [[A; X]; [B; A]] init_state);
    reflexivity.
Defined.

End MoreRuns.
